(** * wrap_my_spotify_v2: aggregation, filtering and ranking of a streaming history

    Shallow embedding of [parse_json], [filter_songs], [sort],
    [ms_to_time] and [pretty_print] from [wrap_my_spotify_v2.py], with
    the properties of the specification, and further properties of the
    code, stated and settled against these definitions.

    Conventions.
    - Python [int] is [Z]; a tally that starts at [0] and only ever
      receives [+= 1] is [N]; [len] is [nat].
    - A naive [datetime] is the number of microseconds since
      [datetime.min] (0001-01-01T00:00:00), so it is an [N] and the
      comparison of two datetimes is the comparison of these numbers.
    - A Python [dict] whose iteration order matters is an association
      list in insertion order with unique keys.
    - An exception is a value [Raise e] of the [result] type; statements
      after the raising one are not executed.
    - [tqdm.tqdm(xs)] iterates over [xs] unchanged (it only draws a
      progress bar), so it is not represented. *)

From Stdlib Require Import QArith.
From Stdlib Require Import Sorting.Sorted.
From stdpp Require Import base tactics option list strings pretty numbers.

Open Scope string_scope.
Open Scope list_scope.

(** ** Exceptions *)

Inductive exn : Type :=
| KeyError (key : string)
| ValueError
| TypeError.

Inductive result (A : Type) : Type :=
| Ok (a : A)
| Raise (e : exn).
Arguments Ok {A} a.
Arguments Raise {A} e.

Definition bind {A B} (r : result A) (k : A -> result B) : result B :=
  match r with
  | Ok a => k a
  | Raise e => Raise e
  end.

Notation "x <~ r ; k" := (bind r (fun x => k))
  (at level 100, r at next level, right associativity, only parsing).

(** [for x in xs: s = body(s, x)], stopping at the first exception. *)
Fixpoint for_each {S A} (body : S -> A -> result S) (s : S) (xs : list A)
  : result S :=
  match xs with
  | [] => Ok s
  | x :: xs' => s' <~ body s x; for_each body s' xs'
  end.

(** ** Data model *)

Definition datetime := N.
Bind Scope N_scope with datetime.
Definition datetime_min : datetime := 0%N.

(** One record of the export, as [json.loads] returns it. *)
Module Raw.
Record t := mk {
  spotify_track_uri : option string;   (* JSON null is [None] *)
  master_metadata_track_name : string;
  master_metadata_album_artist_name : string;
  master_metadata_album_album_name : string;
  ts : string;
  ms_played : Z;
  reason_start : string;
  reason_end : string;
  shuffle : bool;
  skipped : bool;
  offline : bool;
  incognito_mode : bool;
  platform : string
}.
End Raw.

(** The dict appended to [song['listens']] (lines 47-57). *)
Module Listen.
Record t := mk {
  ts : datetime;
  time_played : Z;
  start_reason : string;
  end_reason : string;
  shuffle : bool;
  skipped : bool;
  offline : bool;
  incognito : bool;
  platform : string
}.
End Listen.

(** The dict stored in [all_songs[uri]] (lines 38-44). *)
Module Track.
Record t := mk {
  title : string;
  artist : string;
  album : string;
  uri : string;
  listens : list Listen.t
}.

Definition append_listen (l : Listen.t) (song : t) : t :=
  mk (title song) (artist song) (album song) (uri song) (listens song ++ [l]).
End Track.

(** A value stored under a key of a track dict. *)
Inductive value : Type :=
| VStr (s : string)
| VListens (ls : list Listen.t).

(** The items of a track dict: exactly the five keys that [parse_json]
    stores at lines 39-43; nothing in the program adds a key to it. *)
Definition track_items (song : Track.t) : list (string * value) :=
  [ ("title", VStr (Track.title song));
    ("artist", VStr (Track.artist song));
    ("album", VStr (Track.album song));
    ("uri", VStr (Track.uri song));
    ("listens", VListens (Track.listens song)) ].

Fixpoint assoc {V} (key : string) (items : list (string * V)) : option V :=
  match items with
  | [] => None
  | (k, v) :: rest => if String.eqb k key then Some v else assoc key rest
  end.

(** [song[key]]: the value, or [KeyError] when the dict has no such key. *)
Definition subscript (song : Track.t) (key : string) : result value :=
  match assoc key (track_items song) with
  | Some v => Ok v
  | None => Raise (KeyError key)
  end.

(** [v in reasons] for a list of strings: [==] between a string and a
    list is [False]. *)
Definition value_in (v : value) (reasons : list string) : bool :=
  match v with
  | VStr s => bool_decide (s ∈ reasons)
  | VListens _ => false
  end.

(** The sortable dict built at lines 84-94. *)
Module Filtered.
Record t := mk {
  title : string;
  artist : string;
  album : string;
  uri : string;
  time_played : list Z;
  skips : N
}.

Definition incr_skips (fs : t) : t :=
  mk (title fs) (artist fs) (album fs) (uri fs) (time_played fs) (skips fs + 1).

Definition append_time (ms : Z) (fs : t) : t :=
  mk (title fs) (artist fs) (album fs) (uri fs) (time_played fs ++ [ms]) (skips fs).
End Filtered.

(** ** Insertion-ordered dictionaries *)

Definition dict (V : Type) := list (string * V).

Definition dict_keys {V} (d : dict V) : list string := d.*1.

Definition dict_contains {V} (key : string) (d : dict V) : bool :=
  bool_decide (key ∈ dict_keys d).

(** [d[key] = v] for a key that is not in [d]: appended last. *)
Definition dict_add {V} (key : string) (v : V) (d : dict V) : dict V :=
  d ++ [(key, v)].

(** In-place update of the value stored under [key]. *)
Fixpoint dict_alter {V} (f : V -> V) (key : string) (d : dict V) : dict V :=
  match d with
  | [] => []
  | (k, v) :: rest =>
      if String.eqb k key then (k, f v) :: rest
      else (k, v) :: dict_alter f key rest
  end.

(** ** parse_json (lines 26-59) *)

Section Aggregation.

(** [datetime.strptime(s, '%Y-%m-%dT%H:%M:%SZ')]: [None] stands for the
    [ValueError] it raises on a string that does not match. *)
Variable strptime : string -> option datetime.

Definition new_track (song : Raw.t) (uri : string) : Track.t :=
  Track.mk (Raw.master_metadata_track_name song)
           (Raw.master_metadata_album_artist_name song)
           (Raw.master_metadata_album_album_name song)
           uri
           [].

Definition new_listen (song : Raw.t) (when : datetime) : Listen.t :=
  Listen.mk when
            (Raw.ms_played song)
            (Raw.reason_start song)
            (Raw.reason_end song)
            (Raw.shuffle song)
            (Raw.skipped song)
            (Raw.offline song)
            (Raw.incognito_mode song)
            (Raw.platform song).

(** The body of the loop of line 30. *)
Definition parse_step (all_songs : dict Track.t) (song : Raw.t)
  : result (dict Track.t) :=
  match Raw.spotify_track_uri song with
  | None => Ok all_songs                                     (* line 34 *)
  | Some uri =>
      let all_songs :=
        if dict_contains uri all_songs then all_songs
        else dict_add uri (new_track song uri) all_songs in  (* line 38 *)
      match strptime (Raw.ts song) with                      (* line 48 *)
      | None => Raise ValueError
      | Some when =>
          Ok (dict_alter (Track.append_listen (new_listen song when))
                         uri all_songs)                      (* line 47 *)
      end
  end.

Definition parse_json (json_list : list Raw.t) : result (dict Track.t) :=
  for_each parse_step [] json_list.

End Aggregation.

(** ** filter_songs (lines 61-130) *)

(** The keyword arguments of [filter_songs]. *)
Module Args.
Record t := mk {
  ms_played : Z;
  before : datetime;
  after : datetime;
  artist_include : list string;
  artist_exclude : list string;
  start_reasons : list string;
  end_reasons : list string;
  on_shuffle : option bool;
  while_offline : option bool;
  skipped : option bool;
  while_private : option bool
}.

(** The defaults of lines 62-72.  A default value is evaluated once,
    when the [def] statement runs: [loaded] is the value that
    [datetime.now()] returned at that moment. *)
Definition defaults (loaded : datetime) : t :=
  mk 0 loaded datetime_min [] [] [] [] None None None None.

Definition with_ms_played (ms : Z) (a : t) : t :=
  mk ms (before a) (after a) (artist_include a) (artist_exclude a)
     (start_reasons a) (end_reasons a)
     (on_shuffle a) (while_offline a) (skipped a) (while_private a).
End Args.

(** [reasons != [] and song[key] not in reasons] (lines 111, 112); [and]
    does not evaluate its right operand when the left one is false. *)
Definition reason_mismatch (song : Track.t) (key : string)
    (reasons : list string) : result bool :=
  if bool_decide (reasons ≠ []) then
    v <~ subscript song key;
    Ok (negb (value_in v reasons))
  else Ok false.

(** [flag != option and option != None] (lines 115-117, 121). *)
Definition flag_mismatch (flag : bool) (option : option bool) : bool :=
  bool_decide (Some flag ≠ option) && bool_decide (option ≠ None).

Section ListenLoop.

(** The loop over the listens of one song only touches [filtered_song],
    through the two updates below; [S] is the state that holds it. *)
Context {S : Type}.
Variable incr_skips : S -> S.        (* filtered_song['skips'] += 1 *)
Variable append_time : Z -> S -> S.  (* filtered_song['time-played'].append(ms) *)

Variable a : Args.t.
Variable song : Track.t.

(** The body of the loop of line 101; [Ok s] without an update is a
    [continue].  The counters [continues] and [adds] are never read
    and are left out. *)
Definition listen_body (s : S) (listen : Listen.t) : result S :=
  if (Listen.time_played listen <? Args.ms_played a)%Z then Ok s   (* 104 *)
  else if (Args.before a <? Listen.ts listen)%N then Ok s          (* 107 *)
  else if (Listen.ts listen <? Args.after a)%N then Ok s           (* 108 *)
  else
    bad_start <~ reason_mismatch song "start-reason" (Args.start_reasons a);
    if bad_start : bool then Ok s                                  (* 111 *)
    else
      bad_end <~ reason_mismatch song "end-reason" (Args.end_reasons a);
      if bad_end : bool then Ok s                                  (* 112 *)
      else if flag_mismatch (Listen.shuffle listen) (Args.on_shuffle a)
      then Ok s                                                    (* 115 *)
      else if flag_mismatch (Listen.offline listen) (Args.while_offline a)
      then Ok s                                                    (* 116 *)
      else if flag_mismatch (Listen.incognito listen) (Args.while_private a)
      then Ok s                                                    (* 117 *)
      else
        let s := if Listen.skipped listen then incr_skips s else s in (* 119 *)
        if flag_mismatch (Listen.skipped listen) (Args.skipped a)
        then Ok s                                                  (* 121 *)
        else Ok (append_time (Listen.time_played listen) s).       (* 125 *)

Definition listens_loop (s : S) : result S :=
  for_each listen_body s (Track.listens song).

End ListenLoop.

(** Lines 84-94. *)
Definition new_filtered (song : Track.t) : Filtered.t :=
  Filtered.mk (Track.title song) (Track.artist song) (Track.album song)
              (Track.uri song) [] 0.

(** Line 97 and line 98: the song is skipped as a whole. *)
Definition not_included (a : Args.t) (song : Track.t) : bool :=
  bool_decide (Args.artist_include a ≠ [])
  && negb (bool_decide (Track.artist song ∈ Args.artist_include a)).

Definition excluded (a : Args.t) (song : Track.t) : bool :=
  bool_decide (Track.artist song ∈ Args.artist_exclude a).

(** The body of the loop of line 79.  [songs[uri]], for a key [uri] that
    the iteration over [songs] yields, is the value of that entry. *)
Definition song_body (a : Args.t) (filtered_songs : list Filtered.t)
    (entry : string * Track.t) : result (list Filtered.t) :=
  let song := entry.2 in
  let filtered_song := new_filtered song in
  if not_included a song then Ok filtered_songs
  else if excluded a song then Ok filtered_songs
  else
    filtered_song <~ listens_loop Filtered.incr_skips Filtered.append_time
                                  a song filtered_song;
    Ok (filtered_songs ++ [filtered_song]).                           (* 128 *)

Definition filter_songs (songs : dict Track.t) (a : Args.t)
  : result (list Filtered.t) :=
  for_each (song_body a) [] songs.

(** ** sort (lines 132-142) *)

Section Sorted.

Context {A K : Type}.
Variable ltb : K -> K -> bool.   (* [<] on keys *)
Variable key : A -> K.

(** [x] comes from a position before every element of [l]: it passes
    the elements whose key is greater and stops in front of the first
    element whose key is not. *)
Fixpoint insert_desc (x : A) (l : list A) : list A :=
  match l with
  | [] => [x]
  | y :: l' => if ltb (key x) (key y) then y :: insert_desc x l' else x :: l
  end.

(** [sorted(l, key=key, reverse=True)].  Python's sort is stable, and
    with [reverse=True] elements with equal keys keep their original
    order; a list has one such arrangement, which this computes. *)
Definition sorted_reverse (l : list A) : list A :=
  foldr insert_desc [] l.

End Sorted.

Definition Qltb (x y : Q) : bool := negb (Qle_bool y x).

Definition plays (song : Filtered.t) : Z :=
  Z.of_nat (length (Filtered.time_played song)).

(** [sum(song['time-played'])] *)
Definition total_time (song : Filtered.t) : Z :=
  foldl Z.add 0%Z (Filtered.time_played song).

Definition skips (song : Filtered.t) : Z :=
  Z.of_N (Filtered.skips song).

Section Ranking.

(** [x / y] on two ints is the float nearest to the quotient; [fl] is
    that rounding, a float being the rational it denotes.  A skip
    counter divided by a play count is far inside the range of floats,
    so the division does not overflow.  The comparison of an int with
    a float is exact. *)
Variable fl : Q -> Q.

(** The key of line 142. *)
Definition skip_ratio (song : Filtered.t) : Q :=
  if bool_decide (length (Filtered.time_played song) ≠ 0%nat)
  then fl (inject_Z (skips song) / inject_Z (plays song))
  else (-1)%Q.

(** A [match] statement none of whose cases matches does nothing, and
    the function then returns [None]. *)
Definition sort (sort_by : string) (songs : list Filtered.t)
  : result (option (list Filtered.t)) :=
  if String.eqb sort_by "plays" then
    Ok (Some (sorted_reverse Z.ltb plays songs))
  else if String.eqb sort_by "time" then
    Ok (Some (sorted_reverse Z.ltb total_time songs))
  else if String.eqb sort_by "skips" then
    Ok (Some (sorted_reverse Z.ltb skips songs))
  else if String.eqb sort_by "skip ratio" then
    Ok (Some (sorted_reverse Qltb skip_ratio songs))
  else Ok None.

End Ranking.

(** ** filter_songs on a store of mutable objects

    The dicts and lists that [filter_songs] receives and builds are
    objects that are passed by reference.  Here they live in a store:
    an address is an index, and creating an object appends a cell. *)

Abbreviation loc := nat.

Inductive cell : Type :=
| CSongs (entries : dict loc)       (* the dict passed as [songs] *)
| CTrack (song : Track.t)           (* a track dict, with the listens it owns *)
| CFiltered (title artist album uri : string) (time_played : loc) (skips : N)
                                    (* the dict of lines 84-94 *)
| CInts (xs : list Z)               (* the list under ['time-played'] *)
| CList (items : list loc).         (* [filtered_songs] *)

Abbreviation heap := (list cell).

Definition alloc (c : cell) (h : heap) : heap * loc := (h ++ [c], length h).

Definition read_songs (l : loc) (h : heap) : result (dict loc) :=
  match h !! l with
  | Some (CSongs entries) => Ok entries
  | _ => Raise TypeError
  end.

Definition read_track (l : loc) (h : heap) : result Track.t :=
  match h !! l with
  | Some (CTrack song) => Ok song
  | _ => Raise TypeError
  end.

(** [filtered_song['skips'] += 1] for the dict at [fs] *)
Definition heap_incr_skips (fs : loc) (h : heap) : heap :=
  match h !! fs with
  | Some (CFiltered title artist album uri tp n) =>
      <[fs := CFiltered title artist album uri tp (n + 1)]> h
  | _ => h
  end.

(** [filtered_song['time-played'].append(ms)] for the dict at [fs] *)
Definition heap_append_time (fs : loc) (ms : Z) (h : heap) : heap :=
  match h !! fs with
  | Some (CFiltered _ _ _ _ tp _) =>
      match h !! tp with
      | Some (CInts xs) => <[tp := CInts (xs ++ [ms])]> h
      | _ => h
      end
  | _ => h
  end.

(** [filtered_songs.append(filtered_song)] *)
Definition heap_list_append (l : loc) (x : loc) (h : heap) : heap :=
  match h !! l with
  | Some (CList items) => <[l := CList (items ++ [x])]> h
  | _ => h
  end.

Definition song_body_heap (a : Args.t) (filtered_songs : loc) (h : heap)
    (entry : string * loc) : result heap :=
  song <~ read_track entry.2 h;                                     (* 81 *)
  let '(h, tp) := alloc (CInts []) h in                             (* 92 *)
  let '(h, fs) :=
    alloc (CFiltered (Track.title song) (Track.artist song)
                     (Track.album song) (Track.uri song) tp 0) h in (* 84 *)
  if not_included a song then Ok h
  else if excluded a song then Ok h
  else
    h <~ listens_loop (heap_incr_skips fs) (heap_append_time fs) a song h;
    Ok (heap_list_append filtered_songs fs h).                      (* 128 *)

Definition filter_songs_heap (songs : loc) (a : Args.t) (h : heap)
  : result (heap * loc) :=
  let '(h, filtered_songs) := alloc (CList []) h in                 (* 75 *)
  entries <~ read_songs songs h;                                    (* 79 *)
  h <~ for_each (song_body_heap a filtered_songs) h entries;
  Ok (h, filtered_songs).                                           (* 130 *)

(** The store holds the mapping [songs] at address [l]. *)
Definition holds_songs (h : heap) (l : loc) (songs : dict Track.t) : Prop :=
  exists entries,
    h !! l = Some (CSongs entries) /\
    Forall2 (fun (e : string * loc) (s : string * Track.t) =>
               e.1 = s.1 /\ h !! e.2 = Some (CTrack s.2)) entries songs.

(** ** Notions used in the statements *)

(** The record is not a podcast: line 33 lets it through. *)
Definition has_uri (song : Raw.t) : Prop := Raw.spotify_track_uri song ≠ None.

#[local] Instance has_uri_dec song : Decision (has_uri song) :=
  decide (Raw.spotify_track_uri song ≠ None).

(** Each track is stored under its own [uri]. *)
Definition well_keyed (all_songs : dict Track.t) : Prop :=
  Forall (fun e : string * Track.t => Track.uri e.2 = e.1) all_songs.

(** A record with a track identifier has a timestamp that [strptime]
    accepts. *)
Definition parsable (strptime : string -> option datetime) (song : Raw.t)
  : Prop :=
  has_uri song -> is_Some (strptime (Raw.ts song)).

(** The listen passes the checks of lines 104-108 and 115-117, that is,
    every check before the skip counter except the two on reasons. *)
Definition passes_early (a : Args.t) (listen : Listen.t) : bool :=
  negb (Listen.time_played listen <? Args.ms_played a)%Z
  && negb (Args.before a <? Listen.ts listen)%N
  && negb (Listen.ts listen <? Args.after a)%N
  && negb (flag_mismatch (Listen.shuffle listen) (Args.on_shuffle a))
  && negb (flag_mismatch (Listen.offline listen) (Args.while_offline a))
  && negb (flag_mismatch (Listen.incognito listen) (Args.while_private a)).

(** The listen reaches line 119 with a true skip flag. *)
Definition tallied (a : Args.t) (listen : Listen.t) : bool :=
  passes_early a listen && Listen.skipped listen.

(** The listen also passes line 121 and reaches line 125. *)
Definition kept (a : Args.t) (listen : Listen.t) : bool :=
  passes_early a listen
  && negb (flag_mismatch (Listen.skipped listen) (Args.skipped a)).

(** What one iteration does to [filtered_song] when no reason list is
    given. *)
Definition listen_effect {S} (incr_skips : S -> S) (append_time : Z -> S -> S)
    (a : Args.t) (s : S) (listen : Listen.t) : S :=
  let s := if tallied a listen then incr_skips s else s in
  if kept a listen then append_time (Listen.time_played listen) s else s.

(** The summary of a song as a function of its listens. *)
Definition summary (a : Args.t) (song : Track.t) : Filtered.t :=
  Filtered.mk (Track.title song) (Track.artist song) (Track.album song)
              (Track.uri song)
              (Listen.time_played <$> filter (kept a) (Track.listens song))
              (N.of_nat (length (filter (tallied a) (Track.listens song)))).

(** Neither line 97 nor line 98 skips the song. *)
Definition passes_gate (a : Args.t) (song : Track.t) : bool :=
  negb (not_included a song) && negb (excluded a song).

(** Line 107 or line 108 drops the listen. *)
Definition time_window_excludes (a : Args.t) (listen : Listen.t) : bool :=
  (Args.before a <? Listen.ts listen)%N || (Listen.ts listen <? Args.after a)%N.

(** The call with [before=...] and [after=...] given. *)
Definition with_window (before after : datetime) (a : Args.t) : Args.t :=
  Args.mk (Args.ms_played a) before after
          (Args.artist_include a) (Args.artist_exclude a)
          (Args.start_reasons a) (Args.end_reasons a)
          (Args.on_shuffle a) (Args.while_offline a)
          (Args.skipped a) (Args.while_private a).

(** The call with [skipped=...] given. *)
Definition with_skipped (skipped : option bool) (a : Args.t) : Args.t :=
  Args.mk (Args.ms_played a) (Args.before a) (Args.after a)
          (Args.artist_include a) (Args.artist_exclude a)
          (Args.start_reasons a) (Args.end_reasons a)
          (Args.on_shuffle a) (Args.while_offline a)
          skipped (Args.while_private a).

(** Inputs for the closed examples. *)
Definition sample_listen (ts : datetime) (ms : Z) (skipped : bool) : Listen.t :=
  Listen.mk ts ms "clickrow" "trackdone" false skipped false false "android".

Definition sample_track (uri artist : string) (listens : list Listen.t)
  : Track.t :=
  Track.mk "Song" artist "Album" uri listens.

(** Everything at its default except [start_reasons]; the module was
    loaded at time [100]. *)
Definition args_start_reasons : Args.t :=
  Args.mk 0 100 datetime_min [] [] ["clickrow"] [] None None None None.

(** [artist_include = ['X']] and [end_reasons = ['trackdone']]. *)
Definition args_include_end_reasons : Args.t :=
  Args.mk 0 100 datetime_min ["X"] [] [] ["trackdone"] None None None None.

(** No element is followed, anywhere later, by one with a greater key. *)
Definition descending {A K} (ltb : K -> K -> bool) (key : A -> K)
    (l : list A) : Prop :=
  StronglySorted (fun x y => ltb (key x) (key y) = false) l.

(** Neither key is smaller than the other. *)
Definition same_key {K} (ltb : K -> K -> bool) (k1 k2 : K) : bool :=
  negb (ltb k1 k2) && negb (ltb k2 k1).

(** The elements that share a key come in the same order in both lists. *)
Definition stable {A K} (ltb : K -> K -> bool) (key : A -> K)
    (input output : list A) : Prop :=
  forall k, filter (fun x => same_key ltb (key x) k) output
            = filter (fun x => same_key ltb (key x) k) input.

(** [output] is the stable descending arrangement of [input]. *)
Definition ranked {A K} (ltb : K -> K -> bool) (key : A -> K)
    (input output : list A) : Prop :=
  output ≡ₚ input /\ descending ltb key output /\ stable ltb key input output.

(** Two runs end alike: both return, with related results, or both
    raise the same exception. *)
Definition result_rel {A B} (R : A -> B -> Prop) (r1 : result A)
    (r2 : result B) : Prop :=
  match r1, r2 with
  | Ok x, Ok y => R x y
  | Raise e1, Raise e2 => e1 = e2
  | _, _ => False
  end.

(** The cell of a [filtered_song] dict whose list is at [tp]. *)
Definition cell_of (fs : Filtered.t) (tp : loc) : cell :=
  CFiltered (Filtered.title fs) (Filtered.artist fs) (Filtered.album fs)
            (Filtered.uri fs) tp (Filtered.skips fs).

(** The dict at [fsl], with its list at [tpl], holds the summary [fs]. *)
Definition holds_filtered (h : heap) (fsl tpl : loc) (fs : Filtered.t) : Prop :=
  h !! fsl = Some (cell_of fs tpl) /\
  h !! tpl = Some (CInts (Filtered.time_played fs)).

(** During the loop over the listens of a song only the two objects of
    its [filtered_song] differ from the store [h1] at its start. *)
Definition loop_rel (h1 : heap) (fsl tpl : loc) (fs : Filtered.t) (h : heap)
  : Prop :=
  length h = length h1 /\
  (forall l, l ≠ fsl -> l ≠ tpl -> h !! l = h1 !! l) /\
  holds_filtered h fsl tpl fs.

(** The list at [r] and the dicts it refers to were created after the
    store had [n] objects, and hold the summaries [out]. *)
Definition fresh_result (n : nat) (h : heap) (r : loc)
    (out : list Filtered.t) : Prop :=
  (n <= r)%nat /\
  exists items,
    h !! r = Some (CList items) /\
    Forall2 (fun fsl fs => exists tpl, (n < fsl)%nat /\ (n < tpl)%nat /\
                                       holds_filtered h fsl tpl fs)
            items out.

(** Between two iterations of the loop over the songs: the objects of
    the store [h0] are as they were, and the list at [length h0] refers
    to the summaries built so far. *)
Definition songs_rel (h0 : heap) (out : list Filtered.t) (h : heap) : Prop :=
  (forall l, (l < length h0)%nat -> h !! l = h0 !! l) /\
  (length h0 < length h)%nat /\
  fresh_result (length h0) h (length h0) out.

(** A parser that accepts one timestamp, for the closed examples;
    2023-01-01 is day 738520 after [datetime.min]. *)
Definition sample_strptime (s : string) : option datetime :=
  if String.eqb s "2023-01-01T00:00:00Z" then Some 63808128000000000%N
  else None.

Definition sample_raw (uri : option string) (ts : string) : Raw.t :=
  Raw.mk uri "Song" "X" "Album" ts 40000 "clickrow" "trackdone"
         false false false false "android".

Definition sample_export : list Raw.t :=
  [ sample_raw (Some "u1") "2023-01-01T00:00:00Z";
    sample_raw None "yesterday";
    sample_raw (Some "u2") "2023-01-01T00:00:00Z";
    sample_raw (Some "u1") "2023-01-01T00:00:00Z" ].

(** ** ms_to_time (lines 144-151) *)

(** [//] and [%] round towards minus infinity, as [Z.div] and [Z.modulo]
    do for a positive divisor. *)
Definition whole_seconds (ms : Z) : Z := (ms / 1000)%Z.

Definition hours (ms : Z) : Z := (whole_seconds ms / 3600)%Z.

Definition minutes (ms : Z) : Z := ((whole_seconds ms / 60) mod 60)%Z.

Definition seconds (ms : Z) : Z := (whole_seconds ms mod 60)%Z.

(** The f-string of line 151; [pretty] is [str] on an int. *)
Definition ms_to_time (ms : Z) : string :=
  pretty (hours ms) +:+ ":"
  +:+ (if (minutes ms <? 10)%Z then "0" else "") +:+ pretty (minutes ms)
  +:+ ":"
  +:+ (if (seconds ms <? 10)%Z then "0" else "") +:+ pretty (seconds ms).

(** ** pretty_print (lines 153-167) *)

(** The escape sequences of [colorama] that the function uses. *)
Module Colorama.
Record t := mk {
  Fore_CYAN : string;
  Fore_BLUE : string;
  Fore_YELLOW : string;
  Fore_LIGHTGREEN_EX : string;
  Fore_MAGENTA : string;
  Fore_RESET : string;
  Style_BRIGHT : string;
  Style_NORMAL : string;
  Style_RESET_ALL : string
}.
End Colorama.

Fixpoint spaces (n : nat) : string :=
  match n with
  | O => ""
  | S n' => String (Ascii.ascii_of_nat 32) (spaces n')
  end.

(** The format [:>width]: spaces in front up to [width] characters, and
    nothing cut off. *)
Definition rjust (width : nat) (s : string) : string :=
  spaces (width - String.length s) +:+ s.

(** The line that line 164 prints for the song at index [i]. *)
Definition row (c : Colorama.t) (i : nat) (song : Filtered.t) : string :=
  let rank :=
    Colorama.Fore_YELLOW c +:+ rjust 3 (pretty (i + 1)%nat)
    +:+ Colorama.Fore_RESET c in
  let plays :=
    Colorama.Fore_CYAN c +:+ Colorama.Style_NORMAL c
    +:+ rjust 5 (pretty (length (Filtered.time_played song)))
    +:+ Colorama.Fore_RESET c in
  let time :=
    Colorama.Fore_CYAN c +:+ Colorama.Style_NORMAL c
    +:+ rjust 8 (ms_to_time (foldl Z.add 0%Z (Filtered.time_played song)))
    +:+ Colorama.Fore_RESET c in
  let skips :=
    Colorama.Fore_CYAN c +:+ Colorama.Style_NORMAL c
    +:+ rjust 5 (pretty (Filtered.skips song))
    +:+ Colorama.Fore_RESET c in
  let song_title :=
    Colorama.Fore_LIGHTGREEN_EX c +:+ Filtered.title song
    +:+ Colorama.Fore_RESET c in
  let song_artist :=
    Colorama.Fore_MAGENTA c +:+ Filtered.artist song
    +:+ Colorama.Style_RESET_ALL c in
  rank +:+ " : " +:+ plays +:+ " / " +:+ time +:+ " / " +:+ skips
  +:+ " -> " +:+ song_title +:+ " by " +:+ song_artist.

(** The loop of line 156, from index [i] on: the lines it prints.  The
    [break] of line 167 comes after the song has been printed. *)
Fixpoint print_rows (c : Colorama.t) (count : Z) (i : nat)
    (songs : list Filtered.t) : list string :=
  match songs with
  | [] => []
  | song :: rest =>
      row c i song ::
      (if (Z.of_nat i + 1 =? count)%Z then []
       else print_rows c count (S i) rest)
  end.

(** The two lines of lines 154-155. *)
Definition header (c : Colorama.t) (title : string) : list string :=
  [ Colorama.Fore_CYAN c +:+ Colorama.Style_BRIGHT c +:+ title;
    Colorama.Fore_BLUE c +:+ Colorama.Style_BRIGHT c
    +:+ "  # : plays /     time / skips -> song" ].

(** The lines that [pretty_print] prints, in order. *)
Definition pretty_print (c : Colorama.t) (title : string)
    (songs : list Filtered.t) (count : Z) : list string :=
  header c title ++ print_rows c count 0 songs.

(** ** The queries of the script (lines 176-181) *)

Definition MIN_LISTEN_TIME : Z := 30000.

(** [filter_songs(all_songs, ms_played=MIN_LISTEN_TIME, before=...,
    after=..., skipped=...)]: each call of lines 176-180 gives these
    arguments or leaves them at their defaults, and no other. *)
Definition script_args (before after : datetime) (skipped : option bool)
  : Args.t :=
  Args.mk MIN_LISTEN_TIME before after [] [] [] [] None None skipped None.

(** ** Notions used in the further statements *)

(** The records of the export that carry the identifier [uri]. *)
Definition records_of (uri : string) (json_list : list Raw.t) : list Raw.t :=
  filter (fun song => Raw.spotify_track_uri song = Some uri) json_list.

(** The listens built from records, in the order of the records. *)
Definition listens_of (strptime : string -> option datetime)
    (rs : list Raw.t) : list Listen.t :=
  omap (fun song => new_listen song <$> strptime (Raw.ts song)) rs.

(** The track that the records of one identifier amount to: the names
    of the first record, the listens of all of them. *)
Definition track_of (strptime : string -> option datetime) (uri : string)
    (rs : list Raw.t) : option Track.t :=
  match rs with
  | [] => None
  | first :: _ => Some (Track.mk (Raw.master_metadata_track_name first)
                                 (Raw.master_metadata_album_artist_name first)
                                 (Raw.master_metadata_album_album_name first)
                                 uri
                                 (listens_of strptime rs))
  end.

(** A record that makes line 48 raise. *)
Definition bad_timestamp (strptime : string -> option datetime)
    (song : Raw.t) : Prop :=
  has_uri song /\ strptime (Raw.ts song) = None.

(** The listen gets as far as line 111. *)
Definition reaches_reasons (a : Args.t) (listen : Listen.t) : bool :=
  negb (Listen.time_played listen <? Args.ms_played a)%Z
  && negb (time_window_excludes a listen).

(** The summary of a song none of whose listens was kept or counted. *)
Definition empty_summary (song : Track.t) : Filtered.t := new_filtered song.

(** The two decimal digits of a number below 100. *)
Definition two_digits (n : Z) : string :=
  pretty (n / 10)%Z +:+ pretty (n mod 10)%Z.

(** The number of listens that a mapping holds, over all its tracks. *)
Definition total_listens (all_songs : dict Track.t) : nat :=
  sum_list ((fun e : string * Track.t => length (Track.listens e.2))
              <$> all_songs).

(** The key whose lookup fails first when a reason list is given. *)
Definition missing_key (a : Args.t) : string :=
  if bool_decide (Args.start_reasons a ≠ []) then "start-reason"
  else "end-reason".

(** The song passes the artist checks and one of its listens gets as
    far as line 111. *)
Definition hits_reasons (a : Args.t) (song : Track.t) : bool :=
  passes_gate a song && existsb (reaches_reasons a) (Track.listens song).

(** The summary carries the title, artist, album and uri of the song. *)
Definition same_identity (fs : Filtered.t) (song : Track.t) : Prop :=
  Filtered.title fs = Track.title song /\
  Filtered.artist fs = Track.artist song /\
  Filtered.album fs = Track.album song /\
  Filtered.uri fs = Track.uri song.

(** A palette for the closed examples. *)
Definition sample_colors : Colorama.t :=
  Colorama.mk "<cyan>" "<blue>" "<yellow>" "<green>" "<magenta>" "<reset>"
              "<bright>" "<normal>" "<reset-all>".

(** The record has a non-negative duration and a timestamp that is not
    later than [loaded]. *)
Definition plausible (strptime : string -> option datetime)
    (loaded : datetime) (song : Raw.t) : Prop :=
  (0 <= Raw.ms_played song)%Z /\
  forall when, strptime (Raw.ts song) = Some when -> (when <= loaded)%N.

(** The plays of all summaries together. *)
Definition total_plays (out : list Filtered.t) : nat :=
  sum_list ((fun fs => length (Filtered.time_played fs)) <$> out).

(** The mapping that [parse_json] builds from [sample_export]. *)
Definition sample_songs : dict Track.t :=
  [ ("u1", Track.mk "Song" "X" "Album" "u1"
             [ new_listen (sample_raw (Some "u1") "2023-01-01T00:00:00Z")
                          63808128000000000;
               new_listen (sample_raw (Some "u1") "2023-01-01T00:00:00Z")
                          63808128000000000 ]);
    ("u2", Track.mk "Song" "X" "Album" "u2"
             [ new_listen (sample_raw (Some "u2") "2023-01-01T00:00:00Z")
                          63808128000000000 ]) ].

(** [output] rearranges [input]; a song never comes before one whose
    value is greater; and songs with the same value come in the order
    they have in [input].  [value] is what the songs are ranked by, [le]
    and [eqb] are the order and the equality of such values, stated
    without reference to the comparison that [sorted_reverse] uses. *)
Definition ranked_by_value {K} (le : K -> K -> Prop) (eqb : K -> K -> bool)
    (value : Filtered.t -> K) (input output : list Filtered.t) : Prop :=
  output ≡ₚ input /\
  (forall i j a b,
     output !! i = Some a -> output !! j = Some b -> (i < j)%nat ->
     le (value b) (value a)) /\
  (forall v, filter (fun s => eqb (value s) v) output
             = filter (fun s => eqb (value s) v) input).

(** * Properties *)

(** ** Loops *)

Lemma for_each_app {S A} (body : S -> A -> result S) s xs ys :
  for_each body s (xs ++ ys) = (s' <~ for_each body s xs; for_each body s' ys).
Proof.
  revert s. induction xs as [|x xs IH]; intros s; simpl; [done|].
  destruct (body s x); simpl; auto.
Qed.

(** An invariant of the body is an invariant of the loop. *)
Lemma for_each_invariant {S A} (I : S -> Prop) (body : S -> A -> result S) xs :
  (forall s x s', x ∈ xs -> I s -> body s x = Ok s' -> I s') ->
  forall s s', I s -> for_each body s xs = Ok s' -> I s'.
Proof.
  induction xs as [|x xs IH]; intros Hbody s s' Hs; simpl.
  - by intros [= <-].
  - destruct (body s x) as [s1|e] eqn:Hx; simpl; [|done].
    apply IH.
    + intros s2 y s3 Hy. apply Hbody. apply elem_of_cons. by right.
    + apply (Hbody s x s1); [apply elem_of_cons; by left|done..].
Qed.

(** ** Aggregation *)

Lemma dict_keys_alter {V} (f : V -> V) key (d : dict V) :
  dict_keys (dict_alter f key d) = dict_keys d.
Proof.
  unfold dict_keys. induction d as [|[k v] d IH]; [done|]. simpl.
  destruct (String.eqb k key); [done|]. rewrite !fmap_cons. by f_equal.
Qed.

Lemma dict_keys_add {V} key (v : V) (d : dict V) :
  dict_keys (dict_add key v d) = dict_keys d ++ [key].
Proof. unfold dict_keys, dict_add. by rewrite fmap_app. Qed.

Lemma dict_alter_Forall {V} (P : string * V -> Prop) (f : V -> V) key d :
  (forall k v, P (k, v) -> P (k, f v)) ->
  Forall P d -> Forall P (dict_alter f key d).
Proof.
  intros Hf. induction 1 as [|[k v] d Hx Hd IH]; simpl; [done|].
  destruct (String.eqb k key); constructor; auto.
Qed.

Section AggregationFacts.

Variable strptime : string -> option datetime.

Lemma parse_step_keys d song d' :
  parse_step strptime d song = Ok d' ->
  dict_keys d' =
    match Raw.spotify_track_uri song with
    | Some uri => if dict_contains uri d then dict_keys d
                  else dict_keys d ++ [uri]
    | None => dict_keys d
    end.
Proof.
  unfold parse_step. destruct (Raw.spotify_track_uri song) as [uri|].
  - destruct (strptime _); [|done]. intros [= <-].
    rewrite dict_keys_alter. destruct (dict_contains uri d); [done|].
    apply dict_keys_add.
  - by intros [= <-].
Qed.

Lemma parse_step_well_keyed d song d' :
  well_keyed d -> parse_step strptime d song = Ok d' -> well_keyed d'.
Proof.
  unfold parse_step, well_keyed. intros Hd.
  destruct (Raw.spotify_track_uri song) as [uri|]; [|by intros [= <-]].
  destruct (strptime _); [|done]. intros [= <-].
  apply dict_alter_Forall; [done|].
  destruct (dict_contains uri d); [done|].
  unfold dict_add. apply Forall_app. split; [done|]. by constructor.
Qed.

Lemma parse_step_total d song :
  parsable strptime song -> exists d', parse_step strptime d song = Ok d'.
Proof.
  unfold parsable, has_uri, parse_step. intros Hp.
  destruct (Raw.spotify_track_uri song) as [uri|]; [|eauto].
  destruct Hp as [when ->]; [done|]. eauto.
Qed.

Lemma parse_loop json_list : forall d,
  NoDup (dict_keys d) -> well_keyed d -> Forall (parsable strptime) json_list ->
  exists d',
    for_each (parse_step strptime) d json_list = Ok d' /\
    NoDup (dict_keys d') /\ well_keyed d' /\
    forall uri, uri ∈ dict_keys d' <->
                uri ∈ dict_keys d \/ Some uri ∈ Raw.spotify_track_uri <$> json_list.
Proof.
  induction json_list as [|song l IH]; intros d Hnd Hwk Hp; simpl.
  - exists d. split_and!; auto. intros uri. simpl. rewrite elem_of_nil. tauto.
  - inversion_clear Hp as [|? ? Hs Hl].
    destruct (parse_step_total d song Hs) as [d1 Hd1]. rewrite Hd1. simpl.
    pose proof (parse_step_keys _ _ _ Hd1) as Hk.
    destruct (IH d1) as (d' & Hrun & Hnd' & Hwk' & Hel); auto.
    { rewrite Hk. destruct (Raw.spotify_track_uri song) as [uri|]; [|done].
      unfold dict_contains. case_bool_decide; [done|].
      apply list.NoDup_app. split_and!; [done| |apply NoDup_singleton].
      intros x Hx ->%list_elem_of_singleton. done. }
    { by eapply parse_step_well_keyed. }
    exists d'. split_and!; auto. intros uri.
    rewrite Hel, Hk, elem_of_cons. clear.
    destruct (Raw.spotify_track_uri song) as [u|].
    * unfold dict_contains. case_bool_decide.
      -- split; [tauto|]. intros [?|[[= ->]|?]]; auto.
      -- rewrite elem_of_app, list_elem_of_singleton.
         split; [intros [[?| ->]|?]; auto|]. intros [?|[[= ->]|?]]; auto.
    * split; [tauto|]. intros [?|[?|?]]; auto. done.
Qed.

Lemma parse_loop_null_free json_list : forall d,
  for_each (parse_step strptime) d (filter has_uri json_list)
  = for_each (parse_step strptime) d json_list.
Proof.
  induction json_list as [|song l IH]; intros d; [done|].
  rewrite filter_cons. destruct (decide (has_uri song)) as [Hu|Hu]; simpl.
  - destruct (parse_step strptime d song); simpl; auto.
  - unfold has_uri in Hu. apply dec_stable in Hu.
    unfold parse_step at 2. rewrite Hu. simpl. apply IH.
Qed.

End AggregationFacts.

(** C7.  Whenever the timestamps of the records that carry a track
    identifier are in the expected format, [parse_json] returns a mapping
    with exactly one track per distinct non-null identifier of the input:
    its keys are pairwise distinct, they are the identifiers that occur,
    there are as many of them as distinct identifiers, each track carries
    its key as [uri], and the records with a null identifier can be
    removed from the input without changing the result. *)
Theorem parse_json_one_track_per_uri strptime json_list :
  Forall (parsable strptime) json_list ->
  exists all_songs,
    parse_json strptime json_list = Ok all_songs /\
    NoDup (dict_keys all_songs) /\
    (forall uri, uri ∈ dict_keys all_songs <->
                 Some uri ∈ Raw.spotify_track_uri <$> json_list) /\
    length all_songs
      = length (remove_dups (omap Raw.spotify_track_uri json_list)) /\
    well_keyed all_songs /\
    parse_json strptime (filter has_uri json_list) = Ok all_songs.
Proof.
  intros Hp. unfold parse_json.
  destruct (parse_loop strptime json_list []) as (d & Hrun & Hnd & Hwk & Hel);
    [constructor|constructor|done|].
  assert (Hiff : forall uri, uri ∈ dict_keys d <->
                 Some uri ∈ Raw.spotify_track_uri <$> json_list).
  { intros uri. rewrite Hel. simpl. rewrite elem_of_nil. tauto. }
  exists d. split_and!; auto.
  - transitivity (length (dict_keys d)); [unfold dict_keys; by rewrite length_fmap|].
    apply Permutation_length, NoDup_Permutation; [done|apply NoDup_remove_dups|].
    intros uri. rewrite Hiff, elem_of_remove_dups, list_elem_of_omap, list_elem_of_fmap.
    split; intros (song & ? & ?); exists song; split; auto.
  - by rewrite parse_loop_null_free.
Qed.

(** ** Filtering *)

Lemma subscript_start_reason song :
  subscript song "start-reason" = Raise (KeyError "start-reason").
Proof. reflexivity. Qed.

Lemma subscript_end_reason song :
  subscript song "end-reason" = Raise (KeyError "end-reason").
Proof. reflexivity. Qed.

Lemma reason_mismatch_nil song key : reason_mismatch song key [] = Ok false.
Proof. reflexivity. Qed.

Lemma reason_mismatch_start song reasons :
  reasons ≠ [] ->
  reason_mismatch song "start-reason" reasons = Raise (KeyError "start-reason").
Proof. intros H. unfold reason_mismatch. by rewrite bool_decide_true. Qed.

Lemma reason_mismatch_end song reasons :
  reasons ≠ [] ->
  reason_mismatch song "end-reason" reasons = Raise (KeyError "end-reason").
Proof. intros H. unfold reason_mismatch. by rewrite bool_decide_true. Qed.

Section ListenLoopFacts.

Context {S : Type} (incr_skips : S -> S) (append_time : Z -> S -> S).
Variables (a : Args.t) (song : Track.t).

(** A listen that reaches line 111 with a non-empty [start_reasons]
    raises [KeyError]: a track dict has no key ['start-reason']. *)
Lemma listen_body_start_reasons s listen :
  Args.start_reasons a ≠ [] ->
  (Args.ms_played a <= Listen.time_played listen)%Z ->
  time_window_excludes a listen = false ->
  listen_body incr_skips append_time a song s listen
  = Raise (KeyError "start-reason").
Proof.
  intros Hr Hms Hw. unfold listen_body, time_window_excludes in *.
  apply orb_false_iff in Hw as [-> ->].
  rewrite (proj2 (Z.ltb_ge _ _) Hms).
  by rewrite reason_mismatch_start.
Qed.

Lemma listen_body_end_reasons s listen :
  Args.start_reasons a = [] -> Args.end_reasons a ≠ [] ->
  (Args.ms_played a <= Listen.time_played listen)%Z ->
  time_window_excludes a listen = false ->
  listen_body incr_skips append_time a song s listen
  = Raise (KeyError "end-reason").
Proof.
  intros Hs Hr Hms Hw. unfold listen_body, time_window_excludes in *.
  apply orb_false_iff in Hw as [-> ->].
  rewrite (proj2 (Z.ltb_ge _ _) Hms), Hs, reason_mismatch_nil. simpl.
  by rewrite reason_mismatch_end.
Qed.

(** Without reason lists the body cannot raise, and its effect is
    decided by [tallied] and [kept]. *)
Lemma listen_body_no_reasons s listen :
  Args.start_reasons a = [] -> Args.end_reasons a = [] ->
  listen_body incr_skips append_time a song s listen
  = Ok (listen_effect incr_skips append_time a s listen).
Proof.
  intros Hs He.
  unfold listen_body, listen_effect, tallied, kept, passes_early.
  rewrite Hs, He, !reason_mismatch_nil. simpl.
  destruct (_ <? _)%Z; [done|].
  destruct (_ <? _)%N; [done|].
  destruct (_ <? _)%N; [done|].
  do 3 (destruct (flag_mismatch _ _); [done|]). simpl.
  destruct (Listen.skipped listen); by destruct (flag_mismatch _ _).
Qed.

Lemma listens_loop_no_reasons s :
  Args.start_reasons a = [] -> Args.end_reasons a = [] ->
  listens_loop incr_skips append_time a song s
  = Ok (foldl (listen_effect incr_skips append_time a) s (Track.listens song)).
Proof.
  intros Hs He. unfold listens_loop. generalize (Track.listens song) as ls.
  intros ls. revert s. induction ls as [|l ls IH]; intros s; simpl; [done|].
  rewrite listen_body_no_reasons by done. simpl. apply IH.
Qed.

(** What holds before the loop and is kept by both updates holds after
    the loop. *)
Lemma listens_loop_invariant (I : S -> Prop) s s' :
  (forall s, I s -> I (incr_skips s)) ->
  (forall ms s, I s -> I (append_time ms s)) ->
  I s -> listens_loop incr_skips append_time a song s = Ok s' -> I s'.
Proof.
  intros Hi Ha. unfold listens_loop. apply for_each_invariant.
  clear s s'. intros s l s' _ Hs. unfold listen_body.
  repeat first
    [ progress intros [= <-]
    | match goal with
      | |- context [bind ?r _] => destruct r as [[]|]; simpl; [| |done]
      | |- context [if ?b then _ else _] => destruct b
      end ]; auto.
Qed.

End ListenLoopFacts.

Lemma fold_listen_effect a ls : forall fs,
  foldl (listen_effect Filtered.incr_skips Filtered.append_time a) fs ls
  = Filtered.mk (Filtered.title fs) (Filtered.artist fs) (Filtered.album fs)
                (Filtered.uri fs)
                (Filtered.time_played fs
                   ++ (Listen.time_played <$> filter (kept a) ls))
                (Filtered.skips fs + N.of_nat (length (filter (tallied a) ls))).
Proof.
  induction ls as [|l ls IH]; intros fs; simpl.
  - rewrite app_nil_r, N.add_0_r. by destruct fs.
  - rewrite IH, !filter_cons. unfold listen_effect.
    destruct (tallied a l) eqn:Ht, (kept a l) eqn:Hk; simpl;
      repeat case_decide; try done; simpl;
      rewrite <- ?app_assoc; f_equal; simpl; lia.
Qed.

Lemma song_body_no_reasons a out entry :
  Args.start_reasons a = [] -> Args.end_reasons a = [] ->
  song_body a out entry
  = Ok (if passes_gate a entry.2 then out ++ [summary a entry.2] else out).
Proof.
  intros Hs He. unfold song_body, passes_gate.
  destruct (not_included a entry.2); [done|].
  destruct (excluded a entry.2); [done|].
  rewrite listens_loop_no_reasons by done. simpl.
  by rewrite fold_listen_effect.
Qed.

(** Without reason lists [filter_songs] returns one summary per song
    that passes the artist checks, in the order of the mapping. *)
Lemma filter_songs_no_reasons songs a :
  Args.start_reasons a = [] -> Args.end_reasons a = [] ->
  filter_songs songs a = Ok (summary a <$> filter (passes_gate a) songs.*2).
Proof.
  intros Hs He. unfold filter_songs.
  enough (H : forall out,
    for_each (song_body a) out songs
    = Ok (out ++ (summary a <$> filter (passes_gate a) songs.*2))) by apply H.
  induction songs as [|e songs IH]; intros out; simpl.
  - by rewrite app_nil_r.
  - rewrite song_body_no_reasons by done. simpl.
    rewrite IH, filter_cons.
    destruct (passes_gate a e.2); simpl; [|done].
    by rewrite <- app_assoc.
Qed.

(** C1.  [filter_songs] is not total: with [start_reasons = ['clickrow']]
    and every other argument at its default, a mapping with one track
    that has one listen inside the time window makes it raise
    [KeyError('start-reason')] at line 111 instead of returning a list,
    because a track dict has no ['start-reason'] key to compare. *)
Theorem filter_songs_start_reasons_raises :
  filter_songs [("u1", sample_track "u1" "X" [sample_listen 5 40000 false])]
               args_start_reasons
  = Raise (KeyError "start-reason").
Proof. reflexivity. Qed.

(** C6.  With [artist_include = ['X']] and [end_reasons = ['trackdone']]
    the track by "X" passes the artist checks, yet [filter_songs] returns
    no list that could hold its summary: the lookup of line 112 raises
    [KeyError('end-reason')] on its first listen. *)
Theorem filter_songs_gate_passed_raises :
  passes_gate args_include_end_reasons
              (sample_track "u1" "X" [sample_listen 5 40000 false]) = true /\
  filter_songs [("u1", sample_track "u1" "X" [sample_listen 5 40000 false]);
                ("u2", sample_track "u2" "Y" [sample_listen 6 50000 false])]
               args_include_end_reasons
  = Raise (KeyError "end-reason").
Proof. split; reflexivity. Qed.

(** C3.  The time window is closed: a listen is dropped by lines 107-108
    exactly when its timestamp is strictly after [before] or strictly
    before [after], a dropped listen leaves [filtered_song] as it was,
    and a listen inside the window is treated as if the window were
    closed around its own timestamp.  With the default arguments the
    lower bound is [datetime.min] and drops nothing, while the upper
    bound is the time at which the function was defined: a listen is
    dropped exactly when its timestamp is later than that. *)
Theorem time_window_check loaded a song fs listen :
  (time_window_excludes a listen = true <->
     (Args.before a < Listen.ts listen)%N \/ (Listen.ts listen < Args.after a)%N) /\
  (time_window_excludes a listen = true ->
     listen_body Filtered.incr_skips Filtered.append_time a song fs listen
     = Ok fs) /\
  (time_window_excludes a listen = false ->
     listen_body Filtered.incr_skips Filtered.append_time a song fs listen
     = listen_body Filtered.incr_skips Filtered.append_time
         (with_window (Listen.ts listen) (Listen.ts listen) a) song fs listen) /\
  (Listen.ts listen <? Args.after (Args.defaults loaded))%N = false /\
  (time_window_excludes (Args.defaults loaded) listen = true <->
     (loaded < Listen.ts listen)%N).
Proof.
  unfold time_window_excludes. split_and!.
  - rewrite orb_true_iff, !N.ltb_lt. tauto.
  - unfold listen_body. intros [-> | ->]%orb_true_iff.
    + by destruct (Z.ltb _ _).
    + destruct (Z.ltb _ _); [done|]. by destruct (N.ltb _ _).
  - unfold listen_body, with_window. intros [-> ->]%orb_false_iff.
    cbn -[N.ltb Z.ltb]. by rewrite N.ltb_irrefl.
  - simpl. apply N.ltb_ge. unfold datetime_min. lia.
  - simpl. rewrite orb_true_iff, !N.ltb_lt. unfold datetime_min. lia.
Qed.

(** A listen one microsecond after the time at which the function was
    defined is dropped although every argument is at its default. *)
Lemma default_before_drops_listen :
  time_window_excludes (Args.defaults 100) (sample_listen 101 40000 false) = true /\
  filter_songs [("u1", sample_track "u1" "X" [sample_listen 101 40000 false])]
               (Args.defaults 100)
  = Ok [Filtered.mk "Song" "X" "Album" "u1" [] 0].
Proof. split; reflexivity. Qed.

(** C4.  Without reason lists, the skip counter of the summary of every
    track that passes the artist checks is the number of its listens
    with a true skip flag among those that pass the duration, time-window
    and shuffle/offline/private checks, and its kept durations are those
    of the listens that also agree with the [skipped] option.  The
    counter is incremented before that option is applied: it does not
    depend on the option, and with [skipped=False] every listen it counts
    is one that the option then drops. *)
Theorem skip_tally_before_skipped_option songs a :
  Args.start_reasons a = [] -> Args.end_reasons a = [] ->
  exists out,
    filter_songs songs a = Ok out /\
    Forall2 (fun fs song =>
               Filtered.skips fs
               = N.of_nat (length (filter (tallied a) (Track.listens song))) /\
               Filtered.time_played fs
               = Listen.time_played <$> filter (kept a) (Track.listens song))
            out (filter (passes_gate a) songs.*2) /\
    (forall sk listen, tallied (with_skipped sk a) listen = tallied a listen) /\
    (Args.skipped a = Some false ->
     forall listen, tallied a listen = true -> kept a listen = false).
Proof.
  intros Hs He. eexists. split; [by apply filter_songs_no_reasons|].
  split_and!.
  - apply Forall2_fmap_l, Forall_Forall2_diag, Forall_forall. by intros song _.
  - done.
  - unfold tallied, kept. intros -> listen [_ ->]%andb_true_iff.
    by rewrite andb_false_r.
Qed.

Lemma skip_tally_before_skipped_option_witness :
  let songs := [("u1", sample_track "u1" "X" [sample_listen 5 40000 true])] in
  let a := with_skipped (Some false) (Args.defaults 100) in
  Args.start_reasons a = [] /\ Args.end_reasons a = [] /\
  exists out,
    filter_songs songs a = Ok out /\
    Forall2 (fun fs song =>
               Filtered.skips fs
               = N.of_nat (length (filter (tallied a) (Track.listens song))) /\
               Filtered.time_played fs
               = Listen.time_played <$> filter (kept a) (Track.listens song))
            out (filter (passes_gate a) songs.*2) /\
    (forall sk listen, tallied (with_skipped sk a) listen = tallied a listen) /\
    (Args.skipped a = Some false ->
     forall listen, tallied a listen = true -> kept a listen = false).
Proof.
  intros songs a. split; [reflexivity|]. split; [reflexivity|].
  apply (skip_tally_before_skipped_option songs a); reflexivity.
Defined.

(** A skipped listen shorter than [ms_played] is not counted: the
    counter is [0] although the track has a listen whose skip flag is
    true. *)
Lemma short_skipped_listen_not_tallied :
  Listen.skipped (sample_listen 5 10000 true) = true /\
  filter_songs [("u1", sample_track "u1" "X" [sample_listen 5 10000 true])]
               (Args.with_ms_played 30000 (Args.defaults 100))
  = Ok [Filtered.mk "Song" "X" "Album" "u1" [] 0].
Proof. split; reflexivity. Qed.

(** C5.  A track with the two listens (40000 ms, skipped, T1) and
    (10000 ms, not skipped, T2), both inside the time window, filtered
    with [ms_played=30000] and nothing else restricted, yields the kept
    durations [[40000]] and the skip counter [1]. *)
Theorem two_listens_end_to_end loaded before after uri title artist album turi
    l1 l2 :
  Listen.time_played l1 = 40000%Z -> Listen.skipped l1 = true ->
  Listen.time_played l2 = 10000%Z -> Listen.skipped l2 = false ->
  (after <= Listen.ts l1 <= before)%N ->
  (after <= Listen.ts l2 <= before)%N ->
  filter_songs [(uri, Track.mk title artist album turi [l1; l2])]
               (with_window before after
                  (Args.with_ms_played 30000 (Args.defaults loaded)))
  = Ok [Filtered.mk title artist album turi [40000%Z] 1].
Proof.
  intros Hms1 Hsk1 Hms2 Hsk2 [Ha1 Hb1] [Ha2 Hb2].
  rewrite filter_songs_no_reasons by reflexivity.
  unfold summary, passes_gate. simpl. rewrite !filter_cons, !filter_nil.
  assert (kept (with_window before after
           (Args.with_ms_played 30000 (Args.defaults loaded))) l1 = true) as ->.
  { unfold kept, passes_early. simpl. rewrite Hms1. simpl.
    rewrite (proj2 (N.ltb_ge _ _) Hb1), (proj2 (N.ltb_ge _ _) Ha1). done. }
  assert (tallied (with_window before after
           (Args.with_ms_played 30000 (Args.defaults loaded))) l1 = true) as ->.
  { unfold tallied, passes_early. simpl. rewrite Hms1, Hsk1. simpl.
    rewrite (proj2 (N.ltb_ge _ _) Hb1), (proj2 (N.ltb_ge _ _) Ha1). done. }
  assert (kept (with_window before after
           (Args.with_ms_played 30000 (Args.defaults loaded))) l2 = false) as ->.
  { unfold kept, passes_early. simpl. by rewrite Hms2. }
  assert (tallied (with_window before after
           (Args.with_ms_played 30000 (Args.defaults loaded))) l2 = false) as ->.
  { unfold tallied, passes_early. simpl. by rewrite Hms2. }
  simpl. by rewrite Hms1.
Qed.

Lemma two_listens_end_to_end_witness :
  Listen.time_played (sample_listen 5 40000 true) = 40000%Z /\
  Listen.skipped (sample_listen 5 40000 true) = true /\
  Listen.time_played (sample_listen 6 10000 false) = 10000%Z /\
  Listen.skipped (sample_listen 6 10000 false) = false /\
  (datetime_min <= Listen.ts (sample_listen 5 40000 true) <= 100)%N /\
  (datetime_min <= Listen.ts (sample_listen 6 10000 false) <= 100)%N /\
  filter_songs
    [("u1", Track.mk "Song" "X" "Album" "u1"
              [sample_listen 5 40000 true; sample_listen 6 10000 false])]
    (with_window 100 datetime_min
       (Args.with_ms_played 30000 (Args.defaults 100)))
  = Ok [Filtered.mk "Song" "X" "Album" "u1" [40000%Z] 1].
Proof.
  do 4 (split; [reflexivity|]).
  do 2 (split; [unfold datetime_min; simpl; lia|]).
  apply (two_listens_end_to_end 100 100 datetime_min "u1" "Song" "X" "Album" "u1"
           (sample_listen 5 40000 true) (sample_listen 6 10000 false));
    try reflexivity; unfold datetime_min; simpl; lia.
Defined.

(** ** Ranking *)

Section SortedFacts.

Context {A K : Type} (ltb : K -> K -> bool) (key : A -> K).
Hypothesis ltb_asym : forall x y, ltb x y = true -> ltb y x = false.
Hypothesis ltb_negtrans :
  forall x y z, ltb x y = false -> ltb y z = false -> ltb x z = false.

Lemma insert_desc_perm x l : insert_desc ltb key x l ≡ₚ x :: l.
Proof.
  induction l as [|y l IH]; simpl; [done|].
  destruct (ltb (key x) (key y)); [|done].
  rewrite IH. apply Permutation_swap.
Qed.

Lemma sorted_reverse_perm l : sorted_reverse ltb key l ≡ₚ l.
Proof.
  induction l as [|x l IH]; simpl; [done|].
  by rewrite insert_desc_perm, IH.
Qed.

Lemma insert_desc_descending x l :
  descending ltb key l -> descending ltb key (insert_desc ltb key x l).
Proof.
  unfold descending. induction 1 as [|y l Hl IH Hy]; simpl.
  - repeat constructor.
  - destruct (ltb (key x) (key y)) eqn:Hxy.
    + constructor; [done|]. rewrite insert_desc_perm.
      constructor; [by apply ltb_asym|done].
    + constructor; [by constructor|]. constructor; [done|].
      eapply Forall_impl; [|exact Hy]. intros z Hz. simpl in Hz.
      by apply (ltb_negtrans _ (key y)).
Qed.

Lemma sorted_reverse_descending l :
  descending ltb key (sorted_reverse ltb key l).
Proof.
  induction l as [|x l IH]; simpl; [constructor|].
  by apply insert_desc_descending.
Qed.

(** Inserting [x] only moves it past elements with a greater key, so
    it does not change the order among elements none of which has a
    smaller key than another. *)
Lemma insert_desc_filter (P : A -> bool) x l :
  (forall y z, P y -> P z -> ltb (key y) (key z) = false) ->
  filter P (insert_desc ltb key x l) = filter P (x :: l).
Proof.
  intros HP. induction l as [|y l IH]; simpl; [done|].
  destruct (ltb (key x) (key y)) eqn:Hxy; [|done].
  rewrite filter_cons, IH, !filter_cons.
  destruct (decide (P y)) as [Hy|Hy], (decide (P x)) as [Hx|Hx]; try done.
  rewrite HP in Hxy; done.
Qed.

Lemma sorted_reverse_stable l : stable ltb key l (sorted_reverse ltb key l).
Proof.
  intros k. induction l as [|x l IH]; simpl; [done|].
  rewrite insert_desc_filter.
  - by rewrite !filter_cons, IH.
  - unfold same_key. intros y z Hy Hz.
    rewrite andb_True, !negb_True, !Is_true_false in Hy, Hz.
    destruct Hy as [Hy _], Hz as [_ Hz].
    by apply (ltb_negtrans _ k).
Qed.

Lemma sorted_reverse_ranked l : ranked ltb key l (sorted_reverse ltb key l).
Proof.
  split_and!; [apply sorted_reverse_perm|apply sorted_reverse_descending|
               apply sorted_reverse_stable].
Qed.

Lemma descending_lookup l i j x y :
  descending ltb key l -> l !! i = Some x -> l !! j = Some y ->
  (i < j)%nat -> ltb (key x) (key y) = false.
Proof.
  unfold descending. intros Hl. revert i j.
  induction Hl as [|z l Hl IH Hz]; intros i j Hi Hj Hij; [done|].
  destruct j as [|j]; [lia|]. simpl in Hj. destruct i as [|i].
  - injection Hi as ->. rewrite list.Forall_forall in Hz.
    apply Hz. by eapply list_elem_of_lookup_2.
  - apply (IH i j); [done..|lia].
Qed.

End SortedFacts.

Lemma Zltb_asym x y : (x <? y)%Z = true -> (y <? x)%Z = false.
Proof. rewrite Z.ltb_lt, Z.ltb_ge. lia. Qed.

Lemma Zltb_negtrans x y z :
  (x <? y)%Z = false -> (y <? z)%Z = false -> (x <? z)%Z = false.
Proof. rewrite !Z.ltb_ge. lia. Qed.

Lemma Qltb_lt x y : Qltb x y = true <-> (x < y)%Q.
Proof.
  unfold Qltb. rewrite negb_true_iff, <- not_true_iff_false, Qle_bool_iff.
  split; [apply Qnot_le_lt|apply Qlt_not_le].
Qed.

Lemma Qltb_ge x y : Qltb x y = false <-> (y <= x)%Q.
Proof. unfold Qltb. by rewrite negb_false_iff, Qle_bool_iff. Qed.

Lemma Qltb_asym x y : Qltb x y = true -> Qltb y x = false.
Proof. rewrite Qltb_lt, Qltb_ge. apply Qlt_le_weak. Qed.

Lemma Qltb_negtrans x y z :
  Qltb x y = false -> Qltb y z = false -> Qltb x z = false.
Proof. rewrite !Qltb_ge. intros H1 H2. by apply (Qle_trans _ y). Qed.

Lemma foldl_foldr_add (l : list Z) :
  foldl Z.add 0%Z l = foldr Z.add 0%Z l.
Proof.
  enough (H : forall z, foldl Z.add z l = (z + foldr Z.add 0 l)%Z)
    by (rewrite H; lia).
  induction l as [|x l IH]; intros z; simpl; [lia|]. rewrite IH. lia.
Qed.

Lemma Zeqb_same_key x y : (x =? y)%Z = same_key Z.ltb x y.
Proof.
  unfold same_key.
  destruct (Z.eqb_spec x y), (Z.ltb_spec x y), (Z.ltb_spec y x); simpl;
    try done; lia.
Qed.

Lemma Qeq_bool_same_key x y : Qeq_bool x y = same_key Qltb x y.
Proof.
  unfold same_key, Qltb. rewrite !negb_involutive.
  apply eq_true_iff_eq.
  rewrite Qeq_bool_iff, andb_true_iff, !Qle_bool_iff. split.
  - intros He. split; rewrite He; apply Qle_refl.
  - intros [H1 H2]. by apply Qle_antisym.
Qed.

(** What [ranked] says with the comparison of the sort, said with the
    order and the equality of the values themselves. *)
Lemma ranked_by_value_intro {K} (ltb : K -> K -> bool) (le : K -> K -> Prop)
    (eqb : K -> K -> bool) (key value : Filtered.t -> K) input output :
  (forall s, key s = value s) ->
  (forall x y, ltb x y = false -> le y x) ->
  (forall x y, eqb x y = same_key ltb x y) ->
  ranked ltb key input output ->
  ranked_by_value le eqb value input output.
Proof.
  intros Hkey Hle Heqb (Hp & Hd & Hs). split; [done|]. split.
  - intros i j a b Hi Hj Hij. rewrite <- !Hkey. apply Hle.
    by apply (descending_lookup ltb key output i j).
  - intros v.
    transitivity (filter (fun s => same_key ltb (key s) v) output);
      [|rewrite (Hs v)]; apply list_filter_iff; intros s;
      by rewrite <- Hkey, Heqb.
Qed.

(** C8.  For each of the four metrics [sort] returns a list that is a
    rearrangement of its argument in which no song comes before a song
    with a greater value of the metric and songs with equal values keep
    the order they had in the argument, the metric being the number of
    kept durations for ['plays'], their sum for ['time'], the skip
    counter for ['skips'] and, for ['skip ratio'], the rounded quotient
    of the skip counter by the number of kept durations, or [-1] when
    there is none.  In particular three songs with 5, 2 and 2 kept
    plays, in that order, are returned in that order under ['plays'],
    and given as 2, 5, 2 they are returned with the 5 first and the two
    others in their order; one long play is ranked before two short
    ones under ['time'] and after them under ['plays']. *)
Theorem sort_descending_stable fl songs :
  (exists out,
     sort fl "plays" songs = Ok (Some out) /\
     ranked_by_value Z.le Z.eqb
       (fun s => Z.of_nat (length (Filtered.time_played s))) songs out) /\
  (exists out,
     sort fl "time" songs = Ok (Some out) /\
     ranked_by_value Z.le Z.eqb
       (fun s => foldr Z.add 0%Z (Filtered.time_played s)) songs out) /\
  (exists out,
     sort fl "skips" songs = Ok (Some out) /\
     ranked_by_value Z.le Z.eqb
       (fun s => Z.of_N (Filtered.skips s)) songs out) /\
  (exists out,
     sort fl "skip ratio" songs = Ok (Some out) /\
     ranked_by_value Qle Qeq_bool
       (fun s => match Filtered.time_played s with
                 | [] => (-1)%Q
                 | _ :: _ =>
                     fl (inject_Z (Z.of_N (Filtered.skips s))
                         / inject_Z (Z.of_nat
                                       (length (Filtered.time_played s))))%Q
                 end) songs out) /\
  (forall s1 s2 s3,
     length (Filtered.time_played s1) = 5%nat ->
     length (Filtered.time_played s2) = 2%nat ->
     length (Filtered.time_played s3) = 2%nat ->
     sort fl "plays" [s1; s2; s3] = Ok (Some [s1; s2; s3]) /\
     sort fl "plays" [s2; s1; s3] = Ok (Some [s1; s2; s3])) /\
  (forall long short,
     Filtered.time_played long = [3000%Z] ->
     Filtered.time_played short = [500%Z; 700%Z] ->
     sort fl "time" [short; long] = Ok (Some [long; short]) /\
     sort fl "plays" [long; short] = Ok (Some [short; long])) /\
  (forall few many,
     Filtered.skips few = 1%N -> Filtered.skips many = 3%N ->
     sort fl "skips" [few; many] = Ok (Some [many; few])).
Proof.
  split_and!.
  - eexists. split; [reflexivity|].
    apply (ranked_by_value_intro Z.ltb Z.le Z.eqb plays); [done| |
      apply Zeqb_same_key|
      apply sorted_reverse_ranked; [apply Zltb_asym|apply Zltb_negtrans]].
    intros x y. apply Z.ltb_ge.
  - eexists. split; [reflexivity|].
    apply (ranked_by_value_intro Z.ltb Z.le Z.eqb total_time);
      [intros s; apply foldl_foldr_add| |apply Zeqb_same_key|
       apply sorted_reverse_ranked; [apply Zltb_asym|apply Zltb_negtrans]].
    intros x y. apply Z.ltb_ge.
  - eexists. split; [reflexivity|].
    apply (ranked_by_value_intro Z.ltb Z.le Z.eqb skips); [done| |
      apply Zeqb_same_key|
      apply sorted_reverse_ranked; [apply Zltb_asym|apply Zltb_negtrans]].
    intros x y. apply Z.ltb_ge.
  - eexists. split; [reflexivity|].
    apply (ranked_by_value_intro Qltb Qle Qeq_bool (skip_ratio fl));
      [|intros x y; apply Qltb_ge|apply Qeq_bool_same_key|
       apply sorted_reverse_ranked; [apply Qltb_asym|apply Qltb_negtrans]].
    intros s. unfold skip_ratio, skips, plays.
    by destruct (Filtered.time_played s).
  - intros s1 s2 s3 H1 H2 H3. unfold sort, sorted_reverse.
    cbn [String.eqb Ascii.eqb Bool.eqb foldr insert_desc].
    assert (plays s1 = 5%Z) as E1 by (unfold plays; by rewrite H1).
    assert (plays s2 = 2%Z) as E2 by (unfold plays; by rewrite H2).
    assert (plays s3 = 2%Z) as E3 by (unfold plays; by rewrite H3).
    rewrite E1, E2, E3. change (2 <? 2)%Z with false.
    change (5 <? 2)%Z with false. cbn [insert_desc].
    rewrite E1, E2, E3. change (5 <? 2)%Z with false.
    change (2 <? 5)%Z with true. change (2 <? 2)%Z with false. done.
  - intros long short Hl Hs. unfold sort, sorted_reverse.
    cbn [String.eqb Ascii.eqb Bool.eqb foldr insert_desc].
    unfold total_time, plays. by rewrite Hl, Hs.
  - intros few many Hf Hm. unfold sort, sorted_reverse.
    cbn [String.eqb Ascii.eqb Bool.eqb foldr insert_desc].
    unfold skips. by rewrite Hf, Hm.
Qed.

Lemma skip_ratio_zero_plays fl s :
  Filtered.time_played s = [] -> skip_ratio fl s = (-1)%Q.
Proof. unfold skip_ratio. by intros ->. Qed.

Lemma skip_ratio_some_plays fl s :
  (forall q, (0 <= q)%Q -> (0 <= fl q)%Q) ->
  Filtered.time_played s ≠ [] -> (0 <= skip_ratio fl s)%Q.
Proof.
  intros Hfl Hs. unfold skip_ratio.
  rewrite bool_decide_true by (by destruct (Filtered.time_played s)).
  apply Hfl. apply Qle_shift_div_l.
  - unfold plays, Qlt. simpl. destruct (Filtered.time_played s); [done|].
    simpl. lia.
  - rewrite Qmult_0_l. unfold skips, Qle. simpl. lia.
Qed.

(** C9.  Under ['skip ratio'] a song without kept plays has the key
    [-1] and, when the rounding of the division keeps a non-negative
    quotient non-negative, its position in the result is after the
    position of every song with at least one kept play, whatever the
    skip counters are. *)
Theorem zero_plays_rank_last fl songs :
  (forall q, (0 <= q)%Q -> (0 <= fl q)%Q) ->
  (forall s, Filtered.time_played s = [] -> skip_ratio fl s = (-1)%Q) /\
  exists out,
    sort fl "skip ratio" songs = Ok (Some out) /\ out ≡ₚ songs /\
    forall i j z s,
      out !! i = Some z -> out !! j = Some s ->
      Filtered.time_played z = [] -> Filtered.time_played s ≠ [] ->
      (j < i)%nat.
Proof.
  intros Hfl. split; [apply skip_ratio_zero_plays|].
  eexists. split; [reflexivity|]. split.
  { apply sorted_reverse_perm. }
  intros i j z s Hi Hj Hz Hs.
  destruct (decide (j < i)%nat) as [|Hij]; [done|exfalso].
  assert (i ≠ j) by (intros ->; congruence).
  assert (Hlt : Qltb (skip_ratio fl z) (skip_ratio fl s) = false).
  { eapply (descending_lookup Qltb (skip_ratio fl) _ i j);
      [apply sorted_reverse_descending; [apply Qltb_asym|apply Qltb_negtrans]
      |done..|lia]. }
  apply Qltb_ge in Hlt. rewrite (skip_ratio_zero_plays _ _ Hz) in Hlt.
  pose proof (skip_ratio_some_plays fl s Hfl Hs) as H0.
  pose proof (Qle_trans _ _ _ H0 Hlt) as Hbad. by compute in Hbad.
Qed.

Lemma zero_plays_rank_last_witness :
  (forall q, (0 <= q)%Q -> (0 <= (fun r : Q => r) q)%Q) /\
  exists out,
    sort (fun r => r) "skip ratio"
         [Filtered.mk "a" "X" "A" "u1" [] 7;
          Filtered.mk "b" "X" "A" "u2" [40000%Z] 0] = Ok (Some out) /\
    out ≡ₚ [Filtered.mk "a" "X" "A" "u1" [] 7;
            Filtered.mk "b" "X" "A" "u2" [40000%Z] 0] /\
    forall i j z s,
      out !! i = Some z -> out !! j = Some s ->
      Filtered.time_played z = [] -> Filtered.time_played s ≠ [] ->
      (j < i)%nat.
Proof.
  split; [intros q Hq; exact Hq|].
  apply (zero_plays_rank_last (fun r => r)
           [Filtered.mk "a" "X" "A" "u1" [] 7;
            Filtered.mk "b" "X" "A" "u2" [40000%Z] 0]).
  intros q Hq. exact Hq.
Defined.

(** ** The store *)

Lemma for_each_related {S1 S2 A} (R : S1 -> S2 -> Prop)
    (body1 : S1 -> A -> result S1) (body2 : S2 -> A -> result S2) xs :
  (forall s1 s2 x, R s1 s2 -> result_rel R (body1 s1 x) (body2 s2 x)) ->
  forall s1 s2, R s1 s2 ->
    result_rel R (for_each body1 s1 xs) (for_each body2 s2 xs).
Proof.
  intros Hbody. induction xs as [|x xs IH]; intros s1 s2 HR; simpl; [done|].
  specialize (Hbody s1 s2 x HR).
  destruct (body1 s1 x) as [s1'|e1], (body2 s2 x) as [s2'|e2]; simpl in *;
    [by apply IH|done..].
Qed.

(** Two instances of the loop body whose updates agree behave alike. *)
Lemma listen_body_related {S1 S2} (R : S1 -> S2 -> Prop)
    incr1 append1 incr2 append2 a song s1 s2 listen :
  (forall s1 s2, R s1 s2 -> R (incr1 s1) (incr2 s2)) ->
  (forall ms s1 s2, R s1 s2 -> R (append1 ms s1) (append2 ms s2)) ->
  R s1 s2 ->
  result_rel R (listen_body incr1 append1 a song s1 listen)
               (listen_body incr2 append2 a song s2 listen).
Proof.
  intros Hi Ha HR. unfold listen_body.
  destruct (Z.ltb _ _); [done|].
  destruct (N.ltb _ _); [done|].
  destruct (N.ltb _ _); [done|].
  destruct (reason_mismatch song "start-reason" _) as [[]|]; simpl; [done| |done].
  destruct (reason_mismatch song "end-reason" _) as [[]|]; simpl; [done| |done].
  do 3 (destruct (flag_mismatch _ _); [done|]).
  destruct (Listen.skipped listen), (flag_mismatch _ _); simpl; auto.
Qed.

Lemma holds_filtered_distinct h fsl tpl fs :
  holds_filtered h fsl tpl fs -> fsl ≠ tpl.
Proof. intros [H1 H2] ->. rewrite H1 in H2. discriminate. Qed.

Lemma heap_incr_skips_rel h1 fsl tpl fs h :
  loop_rel h1 fsl tpl fs h ->
  loop_rel h1 fsl tpl (Filtered.incr_skips fs) (heap_incr_skips fsl h).
Proof.
  intros (Hlen & Hframe & Hfs).
  pose proof (holds_filtered_distinct _ _ _ _ Hfs) as Hne.
  destruct Hfs as [Hf Ht]. unfold loop_rel, holds_filtered, cell_of in *.
  unfold heap_incr_skips. rewrite Hf. simpl.
  split_and!.
  - by rewrite length_insert.
  - intros l Hl ?. rewrite list_lookup_insert_ne by congruence. by apply Hframe.
  - rewrite list_lookup_insert_eq; [done|]. by eapply lookup_lt_Some.
  - by rewrite list_lookup_insert_ne.
Qed.

Lemma heap_append_time_rel h1 fsl tpl ms fs h :
  loop_rel h1 fsl tpl fs h ->
  loop_rel h1 fsl tpl (Filtered.append_time ms fs) (heap_append_time fsl ms h).
Proof.
  intros (Hlen & Hframe & Hfs).
  pose proof (holds_filtered_distinct _ _ _ _ Hfs) as Hne.
  destruct Hfs as [Hf Ht]. unfold loop_rel, holds_filtered, cell_of in *.
  unfold heap_append_time. rewrite Hf, Ht. simpl.
  split_and!.
  - by rewrite length_insert.
  - intros l ? Hl. rewrite list_lookup_insert_ne by congruence. by apply Hframe.
  - by rewrite list_lookup_insert_ne by congruence.
  - rewrite list_lookup_insert_eq; [done|]. by eapply lookup_lt_Some.
Qed.

Lemma listens_loop_heap h1 fsl tpl a song fs :
  holds_filtered h1 fsl tpl fs ->
  result_rel (loop_rel h1 fsl tpl)
    (listens_loop Filtered.incr_skips Filtered.append_time a song fs)
    (listens_loop (heap_incr_skips fsl) (heap_append_time fsl) a song h1).
Proof.
  intros Hfs. unfold listens_loop. apply for_each_related.
  - intros s1 s2 listen HR. apply listen_body_related; [| |done].
    + intros ? ?. apply heap_incr_skips_rel.
    + intros ? ? ?. apply heap_append_time_rel.
  - by split_and!.
Qed.

Lemma holds_filtered_frame h h' fsl tpl fs :
  (forall l, (l < length h)%nat -> h' !! l = h !! l) ->
  holds_filtered h fsl tpl fs -> holds_filtered h' fsl tpl fs.
Proof.
  intros Hframe [Hf Ht].
  split; (rewrite Hframe; [done|by eapply lookup_lt_Some]).
Qed.

Lemma fresh_result_frame n h h' r out :
  (forall l, (l < length h)%nat -> h' !! l = h !! l) ->
  fresh_result n h r out -> fresh_result n h' r out.
Proof.
  intros Hframe (Hr & items & Hitems & Hall). split; [done|].
  exists items. split.
  - rewrite Hframe; [done|by eapply lookup_lt_Some].
  - eapply Forall2_impl; [|exact Hall]. intros fsl fs (tpl & ? & ? & Hfs).
    exists tpl. split_and!; [done..|]. by eapply holds_filtered_frame.
Qed.

Lemma song_body_heap_rel h0 a out h (entry : string * loc)
    (s : string * Track.t) :
  songs_rel h0 out h ->
  h0 !! entry.2 = Some (CTrack s.2) ->
  result_rel (songs_rel h0) (song_body a out s)
             (song_body_heap a (length h0) h entry).
Proof.
  intros (Hframe & Hlen & Hres) Hsong.
  assert (Hlt : (entry.2 < length h0)%nat) by (by eapply lookup_lt_Some).
  unfold song_body, song_body_heap, read_track, alloc.
  rewrite Hframe, Hsong by done. simpl.
  set (tpl := length h).
  set (h2 := (h ++ [CInts []]) ++ _).
  set (fsl := length (h ++ [CInts []])).
  assert (Hfsl : fsl = S tpl) by (unfold fsl, tpl; rewrite length_app; simpl; lia).
  assert (Hframe2 : forall l, (l < length h)%nat -> h2 !! l = h !! l).
  { intros l Hl. unfold h2.
    rewrite lookup_app_l by (rewrite length_app; simpl; lia).
    by rewrite lookup_app_l. }
  assert (Hkeep : songs_rel h0 out h2).
  { split_and!.
    - intros l Hl. rewrite Hframe2 by lia. by apply Hframe.
    - unfold h2. rewrite !length_app. simpl. lia.
    - by eapply fresh_result_frame. }
  destruct (not_included a s.2); [done|].
  destruct (excluded a s.2); [done|].
  assert (Hinit : holds_filtered h2 fsl tpl (new_filtered s.2)).
  { split; unfold h2.
    - rewrite lookup_app_r by (fold fsl; lia). fold fsl.
      by rewrite Nat.sub_diag.
    - rewrite lookup_app_l by (rewrite length_app; simpl; lia).
      rewrite lookup_app_r by (fold tpl; lia). fold tpl.
      by rewrite Nat.sub_diag. }
  pose proof (listens_loop_heap h2 fsl tpl a s.2 _ Hinit) as Hrel.
  destruct (listens_loop Filtered.incr_skips _ _ _ _) as [fs'|e1],
           (listens_loop (heap_incr_skips fsl) _ _ _ _) as [h3|e2];
    simpl in *; try done.
  destruct Hrel as (Hlen3 & Hframe3 & Hfs').
  destruct Hres as (_ & items & Hitems & Hall).
  assert (Hlen2 : length h2 = S (S (length h))).
  { unfold h2. rewrite !length_app. simpl. lia. }
  assert (Hold : forall l, (l < length h)%nat -> h3 !! l = h !! l).
  { intros l Hl. rewrite Hframe3 by (unfold tpl in *; lia). by apply Hframe2. }
  unfold heap_list_append. rewrite Hold, Hitems by done.
  split_and!.
  - intros l Hl. rewrite list_lookup_insert_ne by lia.
    rewrite Hold by lia. by apply Hframe.
  - rewrite length_insert. lia.
  - split; [done|]. exists (items ++ [fsl]). split.
    { rewrite list_lookup_insert_eq; [done|lia]. }
    apply Forall2_app.
    + eapply Forall2_impl; [|exact Hall].
      intros fsl' fs (tpl' & Hf1 & Hf2 & Hf3 & Hf4).
      exists tpl'. split; [done|]. split; [done|].
      split; (rewrite list_lookup_insert_ne by lia;
              rewrite Hold; [done|by eapply lookup_lt_Some]).
    + constructor; [|constructor]. exists tpl.
      destruct Hfs' as [Hf3 Hf4]. unfold tpl in *.
      split; [lia|]. split; [lia|].
      split; by rewrite list_lookup_insert_ne by lia.
Qed.

Lemma songs_loop_heap h0 a entries songs :
  Forall2 (fun (e : string * loc) (s : string * Track.t) =>
             e.1 = s.1 /\ h0 !! e.2 = Some (CTrack s.2)) entries songs ->
  forall out h, songs_rel h0 out h ->
    result_rel (songs_rel h0)
      (for_each (song_body a) out songs)
      (for_each (song_body_heap a (length h0)) h entries).
Proof.
  induction 1 as [|e s entries songs [_ He] _ IH]; intros out h Hrel; simpl;
    [done|].
  pose proof (song_body_heap_rel h0 a out h e s Hrel He) as Hstep.
  destruct (song_body a out s) as [out'|e1],
           (song_body_heap a (length h0) h e) as [h'|e2];
    simpl in *; try done.
  by apply IH.
Qed.

(** C10.  For a store that holds the mapping [songs], a call of
    [filter_songs] that returns leaves every object that existed before
    the call as it was, so the mapping and each of its tracks, with all
    its listens, are unchanged; the list it returns and the dicts and
    lists in it are objects created during the call, and they hold the
    summaries that [filter_songs] computes.  A call that raises raises
    the same exception. *)
Theorem filter_songs_leaves_input_unchanged h songs_loc songs a :
  holds_songs h songs_loc songs ->
  match filter_songs songs a with
  | Ok out =>
      exists h' r,
        filter_songs_heap songs_loc a h = Ok (h', r) /\
        take (length h) h' = h /\
        holds_songs h' songs_loc songs /\
        fresh_result (length h) h' r out
  | Raise e => filter_songs_heap songs_loc a h = Raise e
  end.
Proof.
  intros (entries & Hsongs & Hall).
  unfold filter_songs, filter_songs_heap, alloc, read_songs.
  rewrite lookup_app_l by (by eapply lookup_lt_Some). rewrite Hsongs. simpl.
  assert (Hinit : songs_rel h [] (h ++ [CList []])).
  { split_and!.
    - intros l Hl. by rewrite lookup_app_l.
    - rewrite length_app. simpl. lia.
    - split; [done|]. exists []. split; [|constructor].
      rewrite lookup_app_r by lia. by rewrite Nat.sub_diag. }
  pose proof (songs_loop_heap h a entries songs Hall [] _ Hinit) as Hrel.
  destruct (for_each (song_body a) [] songs) as [out|e1],
           (for_each (song_body_heap a (length h)) _ entries) as [h'|e2];
    simpl in *; try done; [|by subst].
  destruct Hrel as (Hframe & Hlen & Hres).
  exists h', (length h). split_and!; [done| | |done].
  - apply list_eq. intros l. destruct (decide (l < length h)%nat) as [Hl|Hl].
    + rewrite lookup_take_lt by done. by apply Hframe.
    + rewrite lookup_take_ge by lia. symmetry. apply lookup_ge_None. lia.
  - exists entries. split.
    + rewrite Hframe; [done|by eapply lookup_lt_Some].
    + eapply Forall2_impl; [|exact Hall]. intros e s [He1 He2].
      split; [done|]. rewrite Hframe; [done|by eapply lookup_lt_Some].
Qed.

Lemma filter_songs_leaves_input_unchanged_witness :
  let t := sample_track "u1" "X"
             [sample_listen 5 40000 true; sample_listen 6 10000 false] in
  let h := [CSongs [("u1", 1%nat)]; CTrack t] in
  let a := Args.with_ms_played 30000 (Args.defaults 100) in
  holds_songs h 0%nat [("u1", t)] /\
  match filter_songs [("u1", t)] a with
  | Ok out =>
      exists h' r,
        filter_songs_heap 0%nat a h = Ok (h', r) /\
        take (length h) h' = h /\
        holds_songs h' 0%nat [("u1", t)] /\
        fresh_result (length h) h' r out
  | Raise e => filter_songs_heap 0%nat a h = Raise e
  end.
Proof.
  intros t h a.
  assert (Hh : holds_songs h 0%nat [("u1", t)]).
  { exists [("u1", 1%nat)]. split; [reflexivity|].
    constructor; [split; reflexivity|constructor]. }
  split; [exact Hh|].
  exact (filter_songs_leaves_input_unchanged h 0%nat [("u1", t)] a Hh).
Defined.

Lemma parse_json_one_track_per_uri_witness :
  Forall (parsable sample_strptime) sample_export /\
  exists all_songs,
    parse_json sample_strptime sample_export = Ok all_songs /\
    NoDup (dict_keys all_songs) /\
    (forall uri, uri ∈ dict_keys all_songs <->
                 Some uri ∈ Raw.spotify_track_uri <$> sample_export) /\
    length all_songs
      = length (remove_dups (omap Raw.spotify_track_uri sample_export)) /\
    well_keyed all_songs /\
    parse_json sample_strptime (filter has_uri sample_export) = Ok all_songs.
Proof.
  assert (H : Forall (parsable sample_strptime) sample_export).
  { unfold sample_export, parsable, has_uri.
    repeat constructor; simpl; intros ?; by eauto. }
  split; [exact H|].
  exact (parse_json_one_track_per_uri sample_strptime sample_export H).
Defined.

(** C2.  A selector that is none of ['plays'], ['time'], ['skips'] and
    ['skip ratio'] matches no case of [sort]: the call raises nothing
    and returns [None]. *)
Theorem sort_unknown_metric_returns_none fl sort_by songs :
  sort_by ≠ "plays" -> sort_by ≠ "time" -> sort_by ≠ "skips" ->
  sort_by ≠ "skip ratio" ->
  sort fl sort_by songs = Ok None.
Proof.
  intros H1 H2 H3 H4. unfold sort.
  by rewrite !(proj2 (String.eqb_neq _ _)) by done.
Qed.

Lemma sort_unknown_metric_returns_none_witness :
  ("tempo" ≠ "plays") /\ ("tempo" ≠ "time") /\ ("tempo" ≠ "skips") /\
  ("tempo" ≠ "skip ratio") /\
  sort (fun r => r) "tempo" [Filtered.mk "Song" "X" "Album" "u1" [40000%Z] 1]
  = Ok None.
Proof.
  do 4 (split; [discriminate|]).
  apply (sort_unknown_metric_returns_none (fun r => r) "tempo"
           [Filtered.mk "Song" "X" "Album" "u1" [40000%Z] 1]); discriminate.
Defined.

(** The selector ['tempo'] is none of the four metrics, and [sort] does
    not raise on it. *)
Lemma sort_unknown_metric_no_error :
  ("tempo" ∉ ["plays"; "time"; "skips"; "skip ratio"]) /\
  ~ exists e,
      sort (fun r => r) "tempo"
           [Filtered.mk "Song" "X" "Album" "u1" [40000%Z] 1] = Raise e.
Proof.
  split.
  - intros H. repeat (apply elem_of_cons in H as [H|H]; [discriminate|]).
    by apply elem_of_nil in H.
  - intros [e He]. discriminate.
Qed.

(** * Further properties *)

(** ** Aggregation *)

Lemma for_each_snoc {S A} (body : S -> A -> result S) s xs x :
  for_each body s (xs ++ [x]) = (s' <~ for_each body s xs; body s' x).
Proof.
  rewrite for_each_app. destruct (for_each body s xs) as [s'|e]; simpl; [|done].
  by destruct (body s' x).
Qed.

Lemma assoc_None {V} key (d : dict V) : assoc key d = None <-> key ∉ dict_keys d.
Proof.
  unfold dict_keys. induction d as [|[k v] d IH]; simpl.
  - rewrite elem_of_nil. tauto.
  - rewrite not_elem_of_cons, <- IH. destruct (String.eqb_spec k key); subst.
    + split; [done|]. intros [? _]. done.
    + split; [|tauto]. split; [congruence|done].
Qed.

Lemma assoc_add {V} key k (v : V) (d : dict V) :
  assoc key (dict_add k v d)
  = match assoc key d with
    | Some x => Some x
    | None => if String.eqb k key then Some v else None
    end.
Proof.
  unfold dict_add. induction d as [|[k' v'] d IH]; simpl; [done|].
  by destruct (String.eqb k' key).
Qed.

Lemma assoc_alter {V} (f : V -> V) key k (d : dict V) :
  assoc key (dict_alter f k d)
  = if String.eqb k key then f <$> assoc key d else assoc key d.
Proof.
  induction d as [|[k' v'] d IH]; simpl; [by destruct (String.eqb k key)|].
  destruct (String.eqb_spec k' k) as [->|Hk]; simpl.
  - by destruct (String.eqb_spec k key).
  - rewrite IH. destruct (String.eqb_spec k key) as [->|Hne].
    + by rewrite (proj2 (String.eqb_neq _ _) Hk).
    + done.
Qed.

Lemma parse_json_snoc strptime json_list song d :
  parse_json strptime (json_list ++ [song]) = Ok d ->
  exists d0, parse_json strptime json_list = Ok d0 /\
             parse_step strptime d0 song = Ok d.
Proof.
  unfold parse_json. rewrite for_each_snoc.
  destruct (for_each _ _ json_list) as [d0|e]; simpl; [|done]. eauto.
Qed.

Lemma records_of_snoc uri json_list song :
  records_of uri (json_list ++ [song])
  = records_of uri json_list
    ++ (if decide (Raw.spotify_track_uri song = Some uri) then [song] else []).
Proof.
  unfold records_of. rewrite list.filter_app, filter_cons, filter_nil.
  by destruct (decide _).
Qed.

(** X1.  In the mapping that [parse_json] returns, the entry of an
    identifier is the track made of the records that carry it: the
    title, artist and album of the first such record, and one listen
    per record, in the order of the export; an identifier that no
    record carries has no entry. *)
Theorem parse_json_entry strptime json_list all_songs :
  parse_json strptime json_list = Ok all_songs ->
  forall uri,
    assoc uri all_songs = track_of strptime uri (records_of uri json_list).
Proof.
  revert all_songs. induction json_list as [|song l IH] using rev_ind;
    intros d Hrun uri.
  - injection Hrun as <-. done.
  - apply parse_json_snoc in Hrun as (d0 & Hl & Hstep).
    specialize (IH d0 Hl). rewrite records_of_snoc.
    unfold parse_step in Hstep.
    destruct (Raw.spotify_track_uri song) as [u|] eqn:Hu.
    2:{ injection Hstep as <-. rewrite decide_False by done.
        rewrite app_nil_r. apply IH. }
    destruct (strptime (Raw.ts song)) as [when|] eqn:Hts; [|done].
    injection Hstep as <-. rewrite assoc_alter.
    destruct (String.eqb_spec u uri) as [->|Hne].
    2:{ rewrite decide_False by congruence. rewrite app_nil_r.
        destruct (dict_contains u d0); [apply IH|].
        rewrite assoc_add, IH. rewrite (proj2 (String.eqb_neq _ _) Hne).
        by destruct (track_of _ _ _). }
    rewrite decide_True by done.
    unfold dict_contains. case_bool_decide as Hin.
    + rewrite IH. destruct (records_of uri l) as [|first rs] eqn:Hrs.
      { exfalso. apply (proj1 (assoc_None uri d0)); [|done].
        by rewrite IH, Hrs. }
      simpl. unfold Track.append_listen, listens_of. simpl.
      rewrite !omap_app. simpl. rewrite Hts. simpl.
      by destruct (new_listen first <$> strptime (Raw.ts first)).
    + rewrite assoc_add, String.eqb_refl.
      apply assoc_None in Hin. rewrite Hin. rewrite IH in Hin.
      destruct (records_of uri l) as [|first rs]; [|done]. simpl.
      unfold listens_of. simpl. by rewrite Hts.
Qed.

Lemma parse_json_entry_witness :
  parse_json sample_strptime sample_export
  = Ok sample_songs /\
  forall uri,
    assoc uri sample_songs
    = track_of sample_strptime uri (records_of uri sample_export).
Proof.
  split; [reflexivity|].
  apply (parse_json_entry sample_strptime sample_export). reflexivity.
Defined.

(** X2.  The keys of the mapping come in the order in which the
    identifiers first occur in the export. *)
Theorem parse_json_key_order strptime json_list all_songs :
  parse_json strptime json_list = Ok all_songs ->
  dict_keys all_songs
  = reverse (remove_dups (reverse (omap Raw.spotify_track_uri json_list))).
Proof.
  revert all_songs. induction json_list as [|song l IH] using rev_ind;
    intros d Hrun.
  - injection Hrun as <-. done.
  - apply parse_json_snoc in Hrun as (d0 & Hl & Hstep).
    specialize (IH d0 Hl). rewrite (parse_step_keys _ _ _ _ Hstep).
    rewrite omap_app. simpl.
    destruct (Raw.spotify_track_uri song) as [u|]; simpl.
    2:{ by rewrite app_nil_r. }
    rewrite reverse_snoc. simpl.
    unfold dict_contains. rewrite IH.
    case_bool_decide as Hin.
    + rewrite elem_of_reverse, elem_of_remove_dups in Hin.
      by case_match.
    + rewrite elem_of_reverse, elem_of_remove_dups in Hin.
      case_match; [done|]. by rewrite reverse_cons.
Qed.

Lemma parse_json_key_order_witness :
  parse_json sample_strptime sample_export
  = Ok sample_songs /\
  dict_keys sample_songs
  = reverse (remove_dups (reverse (omap Raw.spotify_track_uri sample_export))).
Proof.
  split; [reflexivity|].
  apply (parse_json_key_order sample_strptime sample_export
           sample_songs).
  reflexivity.
Defined.

Lemma parse_loop_outcome strptime json_list : forall d,
  (Forall (parsable strptime) json_list /\
   exists d', for_each (parse_step strptime) d json_list = Ok d') \/
  (Exists (bad_timestamp strptime) json_list /\
   for_each (parse_step strptime) d json_list = Raise ValueError).
Proof.
  induction json_list as [|song l IH]; intros d; simpl.
  - left. split; [constructor|eauto].
  - unfold parse_step at 1 3. unfold parsable, bad_timestamp, has_uri.
    destruct (Raw.spotify_track_uri song) as [u|] eqn:Hu.
    + destruct (strptime (Raw.ts song)) as [when|] eqn:Hts; simpl.
      * destruct (IH (dict_alter (Track.append_listen (new_listen song when)) u
                        (if dict_contains u d then d
                         else dict_add u (new_track song u) d)))
          as [[Hall Hok]|[Hex Hraise]].
        -- left. split; [|done]. constructor; [|done]. rewrite Hts. eauto.
        -- right. split; [|done]. by apply Exists_cons_tl.
      * right. split; [|done]. apply Exists_cons_hd. by rewrite Hu.
    + simpl. destruct (IH d) as [[Hall Hok]|[Hex Hraise]].
      * left. split; [|done]. constructor; [|done]. rewrite Hu. done.
      * right. split; [|done]. by apply Exists_cons_tl.
Qed.

(** X3.  [parse_json] raises exactly when some record with a track
    identifier has a timestamp that [strptime] rejects, and what it
    raises is then [ValueError]; a malformed timestamp on a record
    without identifier is never looked at. *)
Theorem parse_json_raises strptime json_list :
  (parse_json strptime json_list = Raise ValueError <->
     Exists (bad_timestamp strptime) json_list) /\
  (forall e, parse_json strptime json_list = Raise e -> e = ValueError).
Proof.
  unfold parse_json.
  destruct (parse_loop_outcome strptime json_list []) as [[Hall [d Hd]]|[Hex Hr]].
  - rewrite Hd. split; [|done]. split; [done|]. intros Hex. exfalso.
    apply list.Exists_exists in Hex as (song & Hin & Hu & Hts).
    rewrite list.Forall_forall in Hall. destruct (Hall song Hin Hu) as [w Hw].
    congruence.
  - rewrite Hr. split; [done|]. by intros e [= <-].
Qed.

Lemma sum_list_append (l k : list nat) :
  sum_list (l ++ k) = (sum_list l + sum_list k)%nat.
Proof. induction l as [|x l IH]; simpl; [done|]. rewrite IH. lia. Qed.

Lemma total_listens_add uri song d :
  total_listens (dict_add uri (new_track song uri) d) = total_listens d.
Proof.
  unfold total_listens, dict_add. rewrite fmap_app, sum_list_append. simpl. lia.
Qed.

Lemma total_listens_alter listen uri d :
  uri ∈ dict_keys d ->
  total_listens (dict_alter (Track.append_listen listen) uri d)
  = S (total_listens d).
Proof.
  unfold dict_keys. induction d as [|[k t] d IH].
  - by intros ?%elem_of_nil.
  - intros Hin. cbn [dict_alter].
    destruct (String.eqb_spec k uri) as [->|Hne]; unfold total_listens in *.
    + rewrite !fmap_cons. simpl. rewrite length_app. simpl. lia.
    + rewrite fmap_cons in Hin. apply elem_of_cons in Hin as [?|Hin].
      { simpl in *. congruence. }
      rewrite !fmap_cons. cbn [sum_list sum_list_with]. rewrite IH by done.
      simpl. lia.
Qed.

Lemma total_listens_parse strptime json_list all_songs :
  parse_json strptime json_list = Ok all_songs ->
  total_listens all_songs = length (filter has_uri json_list).
Proof.
  revert all_songs. induction json_list as [|song l IH] using rev_ind;
    intros d Hrun.
  - injection Hrun as <-. done.
  - apply parse_json_snoc in Hrun as (d0 & Hl & Hstep).
    specialize (IH d0 Hl). rewrite list.filter_app, length_app, <- IH.
    rewrite filter_cons, filter_nil. unfold parse_step in Hstep.
    destruct (decide (has_uri song)) as [Hh|Hh]; unfold has_uri in Hh;
      destruct (Raw.spotify_track_uri song) as [u|].
    + destruct (strptime (Raw.ts song)) as [when|]; [|done].
      injection Hstep as <-. simpl.
      unfold dict_contains. case_bool_decide as Hin.
      * rewrite total_listens_alter by done. lia.
      * rewrite total_listens_alter, total_listens_add; [lia|].
        rewrite dict_keys_add. apply elem_of_app. right.
        by apply list_elem_of_singleton.
    + done.
    + by destruct Hh.
    + injection Hstep as <-. simpl. lia.
Qed.

(** X4.  The mapping holds one listen per record with a track
    identifier: the listens of all its tracks together are as many as
    those records. *)
Theorem parse_json_listen_count strptime json_list all_songs :
  parse_json strptime json_list = Ok all_songs ->
  total_listens all_songs = length (filter has_uri json_list).
Proof. apply total_listens_parse. Qed.

Lemma parse_json_listen_count_witness :
  parse_json sample_strptime sample_export
  = Ok sample_songs /\
  total_listens
    sample_songs
  = length (filter has_uri sample_export).
Proof.
  split; [reflexivity|].
  apply (parse_json_listen_count sample_strptime sample_export). reflexivity.
Defined.

Lemma dict_alter_add {V} (f : V -> V) key (v : V) (d : dict V) :
  key ∉ dict_keys d ->
  dict_alter f key (dict_add key v d) = dict_add key (f v) d.
Proof.
  unfold dict_keys, dict_add. induction d as [|[k t] d IH]; simpl.
  - by rewrite String.eqb_refl.
  - intros [Hne Hd]%not_elem_of_cons.
    rewrite (proj2 (String.eqb_neq k key)) by done. by rewrite IH.
Qed.

(** X5.  No track of the mapping is without listens: a track is
    created only together with its first listen. *)
Theorem parse_json_tracks_nonempty strptime json_list all_songs :
  parse_json strptime json_list = Ok all_songs ->
  Forall (fun e : string * Track.t => Track.listens e.2 ≠ []) all_songs.
Proof.
  revert all_songs. induction json_list as [|song l IH] using rev_ind;
    intros d Hrun.
  - injection Hrun as <-. constructor.
  - apply parse_json_snoc in Hrun as (d0 & Hl & Hstep).
    specialize (IH d0 Hl). unfold parse_step in Hstep.
    destruct (Raw.spotify_track_uri song) as [u|]; [|by injection Hstep as <-].
    destruct (strptime (Raw.ts song)) as [when|]; [|done].
    injection Hstep as <-. unfold dict_contains. case_bool_decide as Hin.
    + apply dict_alter_Forall; [|done]. intros k t _. simpl.
      by destruct (Track.listens t).
    + rewrite dict_alter_add by done. unfold dict_add.
      apply Forall_app. split; [done|]. by repeat constructor.
Qed.

Lemma parse_json_tracks_nonempty_witness :
  parse_json sample_strptime sample_export
  = Ok sample_songs /\
  Forall (fun e : string * Track.t => Track.listens e.2 ≠ [])
    sample_songs.
Proof.
  split; [reflexivity|].
  apply (parse_json_tracks_nonempty sample_strptime sample_export). reflexivity.
Defined.

(** ** Filtering *)

Section ReasonLists.

Context {S : Type} (incr_skips : S -> S) (append_time : Z -> S -> S).
Variables (a : Args.t) (song : Track.t).
Hypothesis given : Args.start_reasons a ≠ [] \/ Args.end_reasons a ≠ [].

Lemma listen_body_with_reasons s listen :
  listen_body incr_skips append_time a song s listen
  = if reaches_reasons a listen then Raise (KeyError (missing_key a)) else Ok s.
Proof.
  unfold listen_body, reaches_reasons, time_window_excludes, missing_key.
  destruct (Z.ltb _ _); [done|].
  destruct (N.ltb (Args.before a) _); [done|].
  destruct (N.ltb _ (Args.after a)); [done|]. simpl.
  destruct (Args.start_reasons a) as [|r rs] eqn:Hs.
  - rewrite reason_mismatch_nil. cbn [bind].
    rewrite reason_mismatch_end
      by (by destruct given).
    reflexivity.
  - rewrite reason_mismatch_start by done. reflexivity.
Qed.

Lemma listens_loop_with_reasons s :
  listens_loop incr_skips append_time a song s
  = if existsb (reaches_reasons a) (Track.listens song)
    then Raise (KeyError (missing_key a)) else Ok s.
Proof.
  unfold listens_loop. induction (Track.listens song) as [|l ls IH]; simpl;
    [done|].
  rewrite listen_body_with_reasons. by destruct (reaches_reasons a l).
Qed.

End ReasonLists.

Lemma song_body_with_reasons a out entry :
  Args.start_reasons a ≠ [] \/ Args.end_reasons a ≠ [] ->
  song_body a out entry
  = if hits_reasons a entry.2 then Raise (KeyError (missing_key a))
    else Ok (if passes_gate a entry.2 then out ++ [empty_summary entry.2]
             else out).
Proof.
  intros Hgiven. unfold song_body, hits_reasons, passes_gate.
  destruct (not_included a entry.2); [done|].
  destruct (excluded a entry.2); [done|].
  rewrite listens_loop_with_reasons by done. simpl.
  by destruct (existsb _ _).
Qed.

Lemma filter_songs_with_reasons_loop a songs : forall out,
  Args.start_reasons a ≠ [] \/ Args.end_reasons a ≠ [] ->
  for_each (song_body a) out songs
  = if existsb (hits_reasons a) songs.*2
    then Raise (KeyError (missing_key a))
    else Ok (out ++ (empty_summary <$> filter (passes_gate a) songs.*2)).
Proof.
  intros out Hgiven. revert out.
  induction songs as [|e songs IH]; intros out; simpl.
  - by rewrite app_nil_r.
  - rewrite song_body_with_reasons by done.
    destruct (hits_reasons a e.2); [done|]. simpl.
    rewrite IH, filter_cons. destruct (existsb _ _); [done|].
    destruct (passes_gate a e.2); simpl; [|done].
    by rewrite <- app_assoc.
Qed.

(** X6.  When a reason list is given, [filter_songs] never keeps or
    counts a listen: it raises [KeyError] as soon as a listen of a song
    that passes the artist checks gets through the duration and
    time-window checks, and otherwise returns empty summaries. *)
Theorem filter_songs_with_reasons songs a :
  Args.start_reasons a ≠ [] \/ Args.end_reasons a ≠ [] ->
  filter_songs songs a
  = if existsb (hits_reasons a) songs.*2
    then Raise (KeyError (missing_key a))
    else Ok (empty_summary <$> filter (passes_gate a) songs.*2).
Proof. intros Hgiven. by apply filter_songs_with_reasons_loop. Qed.

Lemma filter_songs_with_reasons_witness :
  (Args.start_reasons args_start_reasons ≠ []
   \/ Args.end_reasons args_start_reasons ≠ []) /\
  filter_songs [("u1", sample_track "u1" "X" [sample_listen 101 40000 true])]
               args_start_reasons
  = if existsb (hits_reasons args_start_reasons)
         [("u1", sample_track "u1" "X" [sample_listen 101 40000 true])].*2
    then Raise (KeyError (missing_key args_start_reasons))
    else Ok (empty_summary
               <$> filter (passes_gate args_start_reasons)
                     [("u1", sample_track "u1" "X"
                               [sample_listen 101 40000 true])].*2).
Proof.
  split; [by left|].
  apply (filter_songs_with_reasons
           [("u1", sample_track "u1" "X" [sample_listen 101 40000 true])]
           args_start_reasons).
  by left.
Defined.

Lemma filter_songs_returns songs a out :
  filter_songs songs a = Ok out ->
  out = summary a <$> filter (passes_gate a) songs.*2 \/
  out = empty_summary <$> filter (passes_gate a) songs.*2.
Proof.
  destruct (Args.start_reasons a) as [|r rs] eqn:Hs;
    [destruct (Args.end_reasons a) as [|r rs] eqn:He|].
  - rewrite filter_songs_no_reasons by done. intros [= <-]. by left.
  - unfold filter_songs.
    rewrite filter_songs_with_reasons_loop by (right; by rewrite He).
    destruct (existsb _ _); [done|]. intros [= <-]. by right.
  - unfold filter_songs.
    rewrite filter_songs_with_reasons_loop by (left; by rewrite Hs).
    destruct (existsb _ _); [done|]. intros [= <-]. by right.
Qed.

(** X7.  Whenever [filter_songs] returns, its result has exactly one
    summary for each song that passes the artist checks and none for the
    others, in the order of the mapping, and each summary carries the
    title, artist, album and uri of its song. *)
Theorem filter_songs_one_summary_per_song songs a out :
  filter_songs songs a = Ok out ->
  Forall2 same_identity out (filter (passes_gate a) songs.*2).
Proof.
  intros [-> | ->]%filter_songs_returns;
    apply Forall2_fmap_l, Forall_Forall2_diag, list.Forall_forall;
    by intros song _.
Qed.

Lemma filter_songs_one_summary_per_song_witness :
  filter_songs [("u1", sample_track "u1" "X" [sample_listen 5 40000 true]);
                ("u2", sample_track "u2" "Y" [sample_listen 6 50000 false])]
               (Args.mk 0 100 datetime_min ["Y"] [] [] [] None None None None)
  = Ok [Filtered.mk "Song" "Y" "Album" "u2" [50000%Z] 0] /\
  Forall2 same_identity [Filtered.mk "Song" "Y" "Album" "u2" [50000%Z] 0]
    (filter (passes_gate
               (Args.mk 0 100 datetime_min ["Y"] [] [] [] None None None None))
       [("u1", sample_track "u1" "X" [sample_listen 5 40000 true]);
        ("u2", sample_track "u2" "Y" [sample_listen 6 50000 false])].*2).
Proof.
  split; [reflexivity|].
  apply (filter_songs_one_summary_per_song
           [("u1", sample_track "u1" "X" [sample_listen 5 40000 true]);
            ("u2", sample_track "u2" "Y" [sample_listen 6 50000 false])]
           (Args.mk 0 100 datetime_min ["Y"] [] [] [] None None None None)).
  reflexivity.
Defined.

Lemma kept_threshold a listen :
  kept a listen -> (Args.ms_played a <= Listen.time_played listen)%Z.
Proof.
  unfold kept, passes_early. rewrite !andb_True, negb_True, Is_true_false.
  intros [[[[[[H _] _] _] _] _] _]. by apply Z.ltb_ge.
Qed.

(** X8.  Whenever [filter_songs] returns, the kept durations of a
    summary are durations of listens of its song, in their order, each
    at least [ms_played]; so a summary has at most as many plays as its
    song has listens, and its skip counter is at most that number too. *)
Theorem filter_songs_bounds songs a out :
  filter_songs songs a = Ok out ->
  Forall2 (fun fs song =>
             Filtered.time_played fs
               `sublist_of` (Listen.time_played <$> Track.listens song) /\
             Forall (fun ms => (Args.ms_played a <= ms)%Z)
                    (Filtered.time_played fs) /\
             (length (Filtered.time_played fs) <= length (Track.listens song))%nat /\
             (Filtered.skips fs <= N.of_nat (length (Track.listens song)))%N)
          out (filter (passes_gate a) songs.*2).
Proof.
  intros [-> | ->]%filter_songs_returns;
    apply Forall2_fmap_l, Forall_Forall2_diag, list.Forall_forall;
    intros song _; simpl.
  - split_and!.
    + apply fmap_sublist, sublist_filter.
    + apply Forall_fmap, list.Forall_forall. intros l [Hk _]%list_elem_of_filter.
      by apply kept_threshold.
    + rewrite length_fmap. apply length_filter.
    + pose proof (length_filter (tallied a) (Track.listens song)). lia.
  - split_and!; [apply sublist_nil_l|constructor|lia|lia].
Qed.

Lemma filter_songs_bounds_witness :
  let songs := [("u1", sample_track "u1" "X"
                         [sample_listen 5 40000 true; sample_listen 6 10000 true])] in
  let a := Args.with_ms_played 30000 (Args.defaults 100) in
  filter_songs songs a = Ok [Filtered.mk "Song" "X" "Album" "u1" [40000%Z] 1] /\
  Forall2 (fun fs song =>
             Filtered.time_played fs
               `sublist_of` (Listen.time_played <$> Track.listens song) /\
             Forall (fun ms => (Args.ms_played a <= ms)%Z)
                    (Filtered.time_played fs) /\
             (length (Filtered.time_played fs) <= length (Track.listens song))%nat /\
             (Filtered.skips fs <= N.of_nat (length (Track.listens song)))%N)
          [Filtered.mk "Song" "X" "Album" "u1" [40000%Z] 1]
          (filter (passes_gate a) songs.*2).
Proof.
  intros songs a. split; [reflexivity|].
  apply (filter_songs_bounds songs a). reflexivity.
Defined.








Lemma filter_sublist_impl {A} (P Q : A -> bool) (l : list A) :
  (forall x, P x -> Q x) -> filter P l `sublist_of` filter Q l.
Proof.
  intros HPQ. induction l as [|x l IH]; [done|]. rewrite !filter_cons.
  destruct (decide (P x)) as [HP|HP].
  - rewrite decide_True by auto. by apply sublist_skip.
  - destruct (decide (Q x)); [by apply sublist_cons|done].
Qed.

Lemma passes_early_threshold ms a listen :
  (Args.ms_played a <= ms)%Z ->
  passes_early (Args.with_ms_played ms a) listen -> passes_early a listen.
Proof.
  intros Hms. unfold passes_early. simpl.
  destruct (Z.ltb_spec (Listen.time_played listen) ms) as [|H1]; [done|].
  destruct (Z.ltb_spec (Listen.time_played listen) (Args.ms_played a));
    [lia|done].
Qed.

(** X10.  Without reason lists, raising [ms_played] can only remove:
    the summaries are for the same songs, the kept durations under the
    higher threshold are a subsequence of those under the lower one, and
    the skip counter does not grow. *)
Theorem filter_songs_threshold_monotone songs a ms :
  Args.start_reasons a = [] -> Args.end_reasons a = [] ->
  (Args.ms_played a <= ms)%Z ->
  exists low high,
    filter_songs songs a = Ok low /\
    filter_songs songs (Args.with_ms_played ms a) = Ok high /\
    Forall2 (fun fh fl =>
               Filtered.uri fh = Filtered.uri fl /\
               Filtered.time_played fh `sublist_of` Filtered.time_played fl /\
               (Filtered.skips fh <= Filtered.skips fl)%N)
            high low.
Proof.
  intros Hs He Hms. do 2 eexists.
  rewrite !filter_songs_no_reasons by done.
  split_and!; [reflexivity..|].
  change (passes_gate (Args.with_ms_played ms a)) with (passes_gate a).
  apply Forall2_fmap, Forall_Forall2_diag, list.Forall_forall.
  intros song _. unfold summary. simpl. split_and!; [done| |].
  - apply fmap_sublist, filter_sublist_impl. intros l.
    unfold kept. rewrite !andb_True. intros [H1 H2].
    split; [by eapply passes_early_threshold|done].
  - enough (length (filter (tallied (Args.with_ms_played ms a))
                              (Track.listens song))
            <= length (filter (tallied a) (Track.listens song)))%nat by lia.
    apply sublist_length, filter_sublist_impl. intros l.
    unfold tallied. rewrite !andb_True. intros [H1 H2].
    split; [by eapply passes_early_threshold|done].
Qed.

Lemma filter_songs_threshold_monotone_witness :
  let songs := [("u1", sample_track "u1" "X"
                         [sample_listen 5 40000 true; sample_listen 6 10000 true])] in
  let a := Args.defaults 100 in
  Args.start_reasons a = [] /\ Args.end_reasons a = [] /\
  (Args.ms_played a <= 30000)%Z /\
  exists low high,
    filter_songs songs a = Ok low /\
    filter_songs songs (Args.with_ms_played 30000 a) = Ok high /\
    Forall2 (fun fh fl =>
               Filtered.uri fh = Filtered.uri fl /\
               Filtered.time_played fh `sublist_of` Filtered.time_played fl /\
               (Filtered.skips fh <= Filtered.skips fl)%N)
            high low.
Proof.
  intros songs a. split; [reflexivity|]. split; [reflexivity|].
  split; [simpl; lia|].
  apply (filter_songs_threshold_monotone songs a 30000); [reflexivity..|].
  simpl. lia.
Defined.

(** ** Ranking *)

Section SortedUnique.

Context {A K : Type} (ltb : K -> K -> bool) (key : A -> K).
Hypothesis ltb_asym : forall x y, ltb x y = true -> ltb y x = false.
Hypothesis ltb_negtrans :
  forall x y z, ltb x y = false -> ltb y z = false -> ltb x z = false.

Lemma ltb_irrefl x : ltb x x = false.
Proof. destruct (ltb x x) eqn:H; [|done]. by rewrite (ltb_asym _ _ H) in H. Qed.

(** A descending list is its own stable descending arrangement. *)
Lemma sorted_reverse_descending_id l :
  descending ltb key l -> sorted_reverse ltb key l = l.
Proof.
  unfold descending. induction 1 as [|x l Hl IH Hx]; [done|].
  change (sorted_reverse ltb key (x :: l))
    with (insert_desc ltb key x (sorted_reverse ltb key l)).
  rewrite IH. destruct l as [|y l]; simpl; [done|].
  inversion_clear Hx as [|? ? Hxy _]. by rewrite Hxy.
Qed.

Lemma descending_head x l y :
  descending ltb key (x :: l) -> y ∈ x :: l -> ltb (key x) (key y) = false.
Proof.
  unfold descending. intros Hd Hy. inversion_clear Hd as [|? ? _ Hx].
  apply elem_of_cons in Hy as [->|Hy]; [apply ltb_irrefl|].
  rewrite list.Forall_forall in Hx. by apply Hx.
Qed.

(** Two descending lists with the same elements, in which the elements
    of equal key come in the same order, are equal. *)
Lemma stable_descending_unique l1 : forall l2,
  l1 ≡ₚ l2 -> descending ltb key l1 -> descending ltb key l2 ->
  (forall k, filter (fun x => same_key ltb (key x) k) l1
             = filter (fun x => same_key ltb (key x) k) l2) ->
  l1 = l2.
Proof.
  induction l1 as [|x t1 IH]; intros l2 Hp Hd1 Hd2 Hf.
  - by apply Permutation_nil_l in Hp.
  - destruct l2 as [|y t2]; [by apply Permutation_nil_r in Hp|].
    assert (Hxy : ltb (key x) (key y) = false).
    { apply (descending_head x t1); [done|]. rewrite Hp. by left. }
    assert (Hyx : ltb (key y) (key x) = false).
    { apply (descending_head y t2); [done|]. rewrite <- Hp. by left. }
    assert (x = y) as <-.
    { specialize (Hf (key x)). rewrite !filter_cons in Hf.
      rewrite decide_True in Hf
        by (unfold same_key; by rewrite ltb_irrefl).
      rewrite decide_True in Hf
        by (unfold same_key; by rewrite Hxy, Hyx).
      by injection Hf. }
    f_equal. apply IH.
    + by apply Permutation_cons_inv in Hp.
    + unfold descending in *. by inversion_clear Hd1.
    + unfold descending in *. by inversion_clear Hd2.
    + intros k. specialize (Hf k). rewrite !filter_cons in Hf.
      destruct (decide _); [by injection Hf|done].
Qed.

Lemma ranked_unique l out :
  ranked ltb key l out -> out = sorted_reverse ltb key l.
Proof.
  intros (Hp & Hd & Hs). apply stable_descending_unique.
  - by rewrite Hp, sorted_reverse_perm.
  - done.
  - by apply sorted_reverse_descending.
  - intros k. rewrite Hs. symmetry. by apply sorted_reverse_stable.
Qed.

End SortedUnique.

(** X11.  [sort] returns the only list there is that rearranges its
    argument, is descending in the key and keeps songs of equal key in
    their order: any list with these three properties is its result. *)
Theorem sort_result_unique fl songs out :
  (ranked Z.ltb plays songs out -> sort fl "plays" songs = Ok (Some out)) /\
  (ranked Z.ltb total_time songs out -> sort fl "time" songs = Ok (Some out)) /\
  (ranked Z.ltb skips songs out -> sort fl "skips" songs = Ok (Some out)) /\
  (ranked Qltb (skip_ratio fl) songs out ->
   sort fl "skip ratio" songs = Ok (Some out)).
Proof.
  split_and!; intros Hr; unfold sort; simpl; do 2 f_equal; symmetry.
  - apply ranked_unique; [apply Zltb_asym|apply Zltb_negtrans|done].
  - apply ranked_unique; [apply Zltb_asym|apply Zltb_negtrans|done].
  - apply ranked_unique; [apply Zltb_asym|apply Zltb_negtrans|done].
  - apply ranked_unique; [apply Qltb_asym|apply Qltb_negtrans|done].
Qed.

(** X12.  Ranking is idempotent: ranking the result of [sort] again by
    the same metric returns it unchanged. *)
Theorem sort_idempotent fl sort_by songs out :
  sort fl sort_by songs = Ok (Some out) ->
  sort fl sort_by out = Ok (Some out).
Proof.
  unfold sort.
  destruct (String.eqb sort_by "plays").
  { intros [= <-]. do 2 f_equal. apply sorted_reverse_descending_id.
    apply sorted_reverse_descending; [apply Zltb_asym|apply Zltb_negtrans]. }
  destruct (String.eqb sort_by "time").
  { intros [= <-]. do 2 f_equal. apply sorted_reverse_descending_id.
    apply sorted_reverse_descending; [apply Zltb_asym|apply Zltb_negtrans]. }
  destruct (String.eqb sort_by "skips").
  { intros [= <-]. do 2 f_equal. apply sorted_reverse_descending_id.
    apply sorted_reverse_descending; [apply Zltb_asym|apply Zltb_negtrans]. }
  destruct (String.eqb sort_by "skip ratio"); [|done].
  intros [= <-]. do 2 f_equal. apply sorted_reverse_descending_id.
  apply sorted_reverse_descending; [apply Qltb_asym|apply Qltb_negtrans].
Qed.

Lemma sort_idempotent_witness :
  let songs := [Filtered.mk "a" "X" "A" "u1" [1000%Z] 0;
                Filtered.mk "b" "X" "A" "u2" [1000%Z; 2000%Z] 1;
                Filtered.mk "c" "X" "A" "u3" [3000%Z] 1] in
  let out := [Filtered.mk "b" "X" "A" "u2" [1000%Z; 2000%Z] 1;
              Filtered.mk "a" "X" "A" "u1" [1000%Z] 0;
              Filtered.mk "c" "X" "A" "u3" [3000%Z] 1] in
  sort (fun r => r) "plays" songs = Ok (Some out) /\
  sort (fun r => r) "plays" out = Ok (Some out).
Proof.
  intros songs out. split; [reflexivity|].
  apply (sort_idempotent (fun r => r) "plays" songs out). reflexivity.
Defined.

(** ** Durations *)

Lemma string_app_nil (s : string) : "" +:+ s = s.
Proof. reflexivity. Qed.

Lemma string_app_cons c (s1 s2 : string) :
  String c s1 +:+ s2 = String c (s1 +:+ s2).
Proof. reflexivity. Qed.

Lemma string_app_assoc (s1 s2 s3 : string) :
  (s1 +:+ s2) +:+ s3 = s1 +:+ s2 +:+ s3.
Proof.
  induction s1 as [|c s1 IH]; [done|]. rewrite !string_app_cons. by f_equal.
Qed.

Lemma string_app_length (s1 s2 : string) :
  String.length (s1 +:+ s2) = (String.length s1 + String.length s2)%nat.
Proof.
  induction s1 as [|c s1 IH]; [done|]. rewrite string_app_cons. simpl.
  by f_equal.
Qed.

(** Two strings that end in suffixes of the same length are equal only
    if the suffixes, and what comes before them, are equal. *)
Lemma string_app_inj_suffix (a1 : string) : forall a2 b1 b2,
  String.length b1 = String.length b2 ->
  a1 +:+ b1 = a2 +:+ b2 -> a1 = a2 /\ b1 = b2.
Proof.
  induction a1 as [|c a1 IH]; intros [|c' a2] b1 b2 Hl He;
    rewrite ?string_app_nil, ?string_app_cons in He.
  - done.
  - subst b1. simpl in Hl. rewrite string_app_length in Hl. lia.
  - subst b2. simpl in Hl. rewrite string_app_length in Hl. lia.
  - injection He as -> He. destruct (IH _ _ _ Hl He) as [-> ->]. done.
Qed.

Lemma fields_range ms :
  (0 <= minutes ms < 60)%Z /\ (0 <= seconds ms < 60)%Z.
Proof. unfold minutes, seconds. split; by apply Z.mod_pos_bound. Qed.

Lemma fields_sum ms :
  (3600 * hours ms + 60 * minutes ms + seconds ms = whole_seconds ms)%Z.
Proof.
  unfold hours, minutes, seconds.
  pose proof (Z.div_mod (whole_seconds ms) 60 ltac:(done)).
  pose proof (Z.div_mod (whole_seconds ms / 60) 60 ltac:(done)).
  rewrite Z.div_div in * by done. change (60 * 60)%Z with 3600%Z in *. lia.
Qed.

(** X13.  The three fields that [ms_to_time] prints split the whole
    seconds of the duration: minutes and seconds lie between 0 and 59,
    also for a negative duration, and hours, minutes and seconds add up
    to the duration in seconds, rounded down. *)
Theorem ms_to_time_fields ms :
  (0 <= minutes ms < 60)%Z /\ (0 <= seconds ms < 60)%Z /\
  (3600 * hours ms + 60 * minutes ms + seconds ms = whole_seconds ms)%Z /\
  (1000 * whole_seconds ms <= ms < 1000 * whole_seconds ms + 1000)%Z.
Proof.
  destruct (fields_range ms) as [Hm Hs].
  split; [done|]. split; [done|]. split; [apply fields_sum|].
  unfold whole_seconds.
  pose proof (Z.div_mod ms 1000 ltac:(done)).
  pose proof (Z.mod_pos_bound ms 1000 ltac:(done)). lia.
Qed.

Lemma below_sixty (P : Z -> bool) :
  forallb (fun k => P (Z.of_nat k)) (seq 0 60) = true ->
  forall n, (0 <= n < 60)%Z -> P n = true.
Proof.
  intros H n Hn. rewrite forallb_forall in H.
  rewrite <- (Z2Nat.id n) by lia. apply H, in_seq. lia.
Qed.

Lemma pad_two_digits n :
  (0 <= n < 60)%Z ->
  (if (n <? 10)%Z then "0" else "") +:+ pretty n = two_digits n.
Proof.
  intros Hn. apply String.eqb_eq.
  apply (below_sixty (fun n =>
    String.eqb ((if (n <? 10)%Z then "0" else "") +:+ pretty n) (two_digits n)));
    [|done].
  vm_compute. reflexivity.
Qed.

Lemma two_digits_length n :
  (0 <= n < 60)%Z -> String.length (two_digits n) = 2%nat.
Proof.
  intros Hn. apply Nat.eqb_eq.
  apply (below_sixty (fun n => Nat.eqb (String.length (two_digits n)) 2));
    [|done].
  vm_compute. reflexivity.
Qed.

Lemma two_digits_inj m n :
  (0 <= m < 60)%Z -> (0 <= n < 60)%Z -> two_digits m = two_digits n -> m = n.
Proof.
  intros Hm Hn He. apply Z.eqb_eq.
  assert (H : forall m, (0 <= m < 60)%Z -> forall n, (0 <= n < 60)%Z ->
              implb (String.eqb (two_digits m) (two_digits n)) (m =? n)%Z = true).
  { clear. intros m Hm.
    apply (below_sixty (fun n =>
      implb (String.eqb (two_digits m) (two_digits n)) (m =? n)%Z)).
    revert m Hm.
    apply (below_sixty (fun m =>
      forallb (fun k => implb (String.eqb (two_digits m) (two_digits (Z.of_nat k)))
                              (m =? Z.of_nat k)%Z) (seq 0 60))).
    vm_compute. reflexivity. }
  specialize (H m Hm n Hn). rewrite He, String.eqb_refl in H. done.
Qed.

Lemma ms_to_time_layout ms :
  ms_to_time ms
  = pretty (hours ms) +:+ ":" +:+ two_digits (minutes ms)
    +:+ ":" +:+ two_digits (seconds ms).
Proof.
  destruct (fields_range ms) as [Hm Hs]. unfold ms_to_time.
  rewrite <- (pad_two_digits (minutes ms)), <- (pad_two_digits (seconds ms))
    by done.
  by rewrite !string_app_assoc.
Qed.

(** X14.  [ms_to_time] prints the hours as they are, and the minutes and
    the seconds with exactly two digits each: the result is the hours, a
    colon, two digits, a colon and two digits. *)
Theorem ms_to_time_format ms :
  ms_to_time ms
  = pretty (hours ms) +:+ ":" +:+ two_digits (minutes ms)
    +:+ ":" +:+ two_digits (seconds ms) /\
  String.length (two_digits (minutes ms)) = 2%nat /\
  String.length (two_digits (seconds ms)) = 2%nat /\
  String.length (ms_to_time ms) = (String.length (pretty (hours ms)) + 6)%nat.
Proof.
  destruct (fields_range ms) as [Hm Hs].
  pose proof (two_digits_length _ Hm) as Lm.
  pose proof (two_digits_length _ Hs) as Ls.
  split; [apply ms_to_time_layout|]. split; [done|]. split; [done|].
  rewrite ms_to_time_layout, !string_app_length, Lm, Ls. simpl. lia.
Qed.

(** X15.  Two durations are printed alike exactly when they have the
    same number of whole seconds. *)
Theorem ms_to_time_inj ms1 ms2 :
  ms_to_time ms1 = ms_to_time ms2 <-> whole_seconds ms1 = whole_seconds ms2.
Proof.
  split.
  - rewrite !ms_to_time_layout. intros He.
    destruct (fields_range ms1) as [Hm1 Hs1].
    destruct (fields_range ms2) as [Hm2 Hs2].
    apply string_app_inj_suffix in He as [Hh He].
    2:{ rewrite !string_app_cons, !string_app_nil. simpl.
        rewrite !string_app_length. simpl. by rewrite !two_digits_length. }
    rewrite !string_app_cons, !string_app_nil in He. injection He as He.
    apply string_app_inj_suffix in He as [Hm He].
    2:{ simpl. by rewrite !two_digits_length. }
    injection He as He.
    apply (inj pretty) in Hh.
    apply two_digits_inj in Hm; [|done..].
    apply two_digits_inj in He; [|done..].
    pose proof (fields_sum ms1). pose proof (fields_sum ms2). lia.
  - unfold ms_to_time, hours, minutes, seconds. by intros ->.
Qed.

(** ** Printing *)

Lemma print_rows_all c count i songs :
  (count <= Z.of_nat i \/ Z.of_nat i + Z.of_nat (length songs) < count)%Z ->
  print_rows c count i songs = imap (fun j => row c (i + j)) songs.
Proof.
  revert i. induction songs as [|song rest IH]; intros i Hc; [done|].
  cbn [print_rows]. rewrite imap_cons, Nat.add_0_r.
  cbn [length] in Hc. rewrite Nat2Z.inj_succ in Hc.
  rewrite (proj2 (Z.eqb_neq _ _)) by lia.
  rewrite IH by lia. f_equal. apply imap_ext. intros j x _. simpl.
  f_equal. lia.
Qed.

Lemma print_rows_some c count i songs :
  (Z.of_nat i < count <= Z.of_nat i + Z.of_nat (length songs))%Z ->
  print_rows c count i songs
  = imap (fun j => row c (i + j)) (take (Z.to_nat count - i) songs).
Proof.
  revert i. induction songs as [|song rest IH]; intros i Hc.
  { simpl in Hc. lia. }
  cbn [print_rows]. cbn [length] in Hc. rewrite Nat2Z.inj_succ in Hc.
  replace (Z.to_nat count - i)%nat with (S (Z.to_nat count - S i)) by lia.
  cbn [take]. rewrite imap_cons, Nat.add_0_r. f_equal.
  destruct (Z.eqb_spec (Z.of_nat i + 1) count) as [He|He].
  - replace (Z.to_nat count - S i)%nat with 0%nat by lia. done.
  - rewrite IH by lia. apply imap_ext. intros j x _. simpl. f_equal. lia.
Qed.

Lemma pretty_print_rows_aux c title songs count :
  ((1 <= count <= Z.of_nat (length songs))%Z ->
   pretty_print c title songs count
   = header c title ++ imap (row c) (take (Z.to_nat count) songs)) /\
  ((count <= 0 \/ Z.of_nat (length songs) < count)%Z ->
   pretty_print c title songs count = header c title ++ imap (row c) songs).
Proof.
  unfold pretty_print. split; intros Hc; f_equal.
  - rewrite print_rows_some by (simpl; lia). by rewrite Nat.sub_0_r.
  - by rewrite print_rows_all by (simpl; lia).
Qed.

(** X16.  [pretty_print] prints the two header lines and then one line
    per song, in order and numbered from 1: the first [count] songs
    when [count] is between 1 and the number of songs, and every song
    otherwise, in particular when [count] is 0 or negative. *)
Theorem pretty_print_rows c title songs count :
  ((1 <= count <= Z.of_nat (length songs))%Z ->
   pretty_print c title songs count
   = header c title ++ imap (row c) (take (Z.to_nat count) songs)) /\
  ((count <= 0 \/ Z.of_nat (length songs) < count)%Z ->
   pretty_print c title songs count = header c title ++ imap (row c) songs).
Proof. apply pretty_print_rows_aux. Qed.

Lemma pretty_print_length c title songs :
  length (pretty_print c title songs 10)
  = (2 + Nat.min 10 (length songs))%nat.
Proof.
  destruct (decide (10 <= Z.of_nat (length songs))%Z) as [H|H].
  - rewrite (proj1 (pretty_print_rows_aux c title songs 10)) by lia.
    rewrite length_app, length_imap, length_take.
    change (Z.to_nat 10) with 10%nat. cbn [header length]. lia.
  - rewrite (proj2 (pretty_print_rows_aux c title songs 10)) by lia.
    rewrite length_app, length_imap. cbn [header length]. lia.
Qed.

(** ** The script *)

Lemma passes_gate_no_artists a song :
  Args.artist_include a = [] -> Args.artist_exclude a = [] ->
  passes_gate a song = true.
Proof.
  intros Hi He. unfold passes_gate, not_included, excluded. rewrite Hi, He.
  rewrite (bool_decide_false (_ ∈ [])) by apply not_elem_of_nil.
  by rewrite bool_decide_false by (by intros []).
Qed.

Lemma filter_all {A} (P : A -> bool) (l : list A) :
  (forall x, x ∈ l -> P x = true) -> filter P l = l.
Proof.
  induction l as [|x l IH]; intros H; [done|]. rewrite filter_cons.
  rewrite decide_True by (rewrite H; [done|by left]).
  f_equal. apply IH. intros y Hy. apply H. by right.
Qed.

(** X17.  A query of the script, which restricts neither artists nor
    reasons, followed by a ranking by plays or by time, cannot fail:
    [filter_songs] returns one summary per track of the mapping, [sort]
    returns a rearrangement of them, and [pretty_print] with its default
    [count] then prints the two header lines and at most ten rows. *)
Theorem script_report c fl all_songs a title sort_by :
  Args.artist_include a = [] -> Args.artist_exclude a = [] ->
  Args.start_reasons a = [] -> Args.end_reasons a = [] ->
  sort_by = "plays" \/ sort_by = "time" ->
  exists out ranked,
    filter_songs all_songs a = Ok out /\
    length out = length all_songs /\
    sort fl sort_by out = Ok (Some ranked) /\
    ranked ≡ₚ out /\
    length (pretty_print c title ranked 10)
    = (2 + Nat.min 10 (length all_songs))%nat.
Proof.
  intros Hi Hx Hs He Hby.
  assert (Hlen : length (summary a <$> filter (passes_gate a) all_songs.*2)
                 = length all_songs).
  { rewrite filter_all by (intros; by apply passes_gate_no_artists).
    by rewrite !length_fmap. }
  exists (summary a <$> filter (passes_gate a) all_songs.*2).
  destruct Hby as [-> | ->].
  - eexists. split; [by apply filter_songs_no_reasons|]. split; [done|].
    split; [reflexivity|].
    assert (Hp : sorted_reverse Z.ltb plays
                   (summary a <$> filter (passes_gate a) all_songs.*2)
                 ≡ₚ summary a <$> filter (passes_gate a) all_songs.*2)
      by apply sorted_reverse_perm.
    split; [done|]. by rewrite pretty_print_length, Hp, Hlen.
  - eexists. split; [by apply filter_songs_no_reasons|]. split; [done|].
    split; [reflexivity|].
    assert (Hp : sorted_reverse Z.ltb total_time
                   (summary a <$> filter (passes_gate a) all_songs.*2)
                 ≡ₚ summary a <$> filter (passes_gate a) all_songs.*2)
      by apply sorted_reverse_perm.
    split; [done|]. by rewrite pretty_print_length, Hp, Hlen.
Qed.

Lemma script_report_witness :
  let all_songs :=
    [("u1", sample_track "u1" "X" [sample_listen 63808128000000001 40000 false]);
     ("u2", sample_track "u2" "Y" [sample_listen 63808128000000002 50000 true])] in
  let a := script_args 70000000000000000 63808128000000000 (Some false) in
  Args.artist_include a = [] /\ Args.artist_exclude a = [] /\
  Args.start_reasons a = [] /\ Args.end_reasons a = [] /\
  ("plays" = "plays" \/ "plays" = "time") /\
  exists out ranked,
    filter_songs all_songs a = Ok out /\
    length out = length all_songs /\
    sort (fun r => r) "plays" out = Ok (Some ranked) /\
    ranked ≡ₚ out /\
    length (pretty_print sample_colors "Most played songs" ranked 10)
    = (2 + Nat.min 10 (length all_songs))%nat.
Proof.
  intros all_songs a. do 4 (split; [reflexivity|]). split; [by left|].
  apply (script_report sample_colors (fun r => r) all_songs a
           "Most played songs" "plays"); try reflexivity.
  by left.
Defined.

Lemma kept_defaults loaded listen :
  (0 <= Listen.time_played listen)%Z -> (Listen.ts listen <= loaded)%N ->
  kept (Args.defaults loaded) listen = true.
Proof.
  intros Hms Hts. unfold kept, passes_early. simpl.
  rewrite (proj2 (Z.ltb_ge _ _) Hms), (proj2 (N.ltb_ge _ _) Hts).
  by destruct (Listen.ts listen).
Qed.

Lemma parse_json_listens_kept strptime loaded json_list all_songs :
  parse_json strptime json_list = Ok all_songs ->
  Forall (fun song => has_uri song -> plausible strptime loaded song) json_list ->
  Forall (fun e : string * Track.t =>
            forall listen, listen ∈ Track.listens e.2 ->
                           kept (Args.defaults loaded) listen = true)
         all_songs.
Proof.
  revert all_songs. induction json_list as [|song l IH] using rev_ind;
    intros d Hrun Hall.
  - injection Hrun as <-. constructor.
  - apply parse_json_snoc in Hrun as (d0 & Hl & Hstep).
    apply Forall_app in Hall as [Hall Hsong].
    inversion_clear Hsong as [|? ? Hsong' _].
    specialize (IH d0 Hl Hall). unfold parse_step in Hstep.
    unfold has_uri, plausible in Hsong'.
    destruct (Raw.spotify_track_uri song) as [u|]; [|by injection Hstep as <-].
    destruct (strptime (Raw.ts song)) as [when|] eqn:Hts; [|done].
    injection Hstep as <-. destruct Hsong' as [Hms Hwhen]; [done|].
    assert (Hnew : kept (Args.defaults loaded) (new_listen song when) = true).
    { apply kept_defaults; simpl; auto. }
    unfold dict_contains. case_bool_decide as Hin.
    + apply dict_alter_Forall; [|done]. intros k t Ht listen. simpl.
      intros [?| ->%list_elem_of_singleton]%elem_of_app; auto.
    + rewrite dict_alter_add by done. unfold dict_add.
      apply Forall_app. split; [done|]. constructor; [|constructor].
      simpl. by intros listen ->%list_elem_of_singleton.
Qed.

(** X18.  Nothing is lost between the export and an unrestricted query:
    when every record with a track identifier has a non-negative
    duration and a timestamp not later than the moment [filter_songs]
    was defined, [filter_songs] with all arguments at their defaults
    returns summaries whose plays are, together, as many as those
    records. *)
Theorem all_listens_counted strptime loaded json_list all_songs :
  parse_json strptime json_list = Ok all_songs ->
  Forall (fun song => has_uri song -> plausible strptime loaded song) json_list ->
  exists out,
    filter_songs all_songs (Args.defaults loaded) = Ok out /\
    total_plays out = length (filter has_uri json_list).
Proof.
  intros Hrun Hall. eexists. split; [by apply filter_songs_no_reasons|].
  rewrite <- (total_listens_parse _ _ _ Hrun).
  pose proof (parse_json_listens_kept _ _ _ _ Hrun Hall) as Hkept.
  rewrite filter_all by (intros; by apply passes_gate_no_artists).
  unfold total_plays, total_listens. clear Hrun Hall.
  induction Hkept as [|e d He Hd IH]; [done|].
  rewrite !fmap_cons. cbn [sum_list sum_list_with]. rewrite <- IH.
  f_equal. unfold summary. cbn [Filtered.time_played].
  by rewrite length_fmap, filter_all.
Qed.

Lemma all_listens_counted_witness :
  parse_json sample_strptime sample_export = Ok sample_songs /\
  Forall (fun song => has_uri song ->
                      plausible sample_strptime 70000000000000000 song)
         sample_export /\
  exists out,
    filter_songs sample_songs (Args.defaults 70000000000000000) = Ok out /\
    total_plays out = length (filter has_uri sample_export).
Proof.
  assert (H : Forall (fun song => has_uri song ->
                        plausible sample_strptime 70000000000000000 song)
                     sample_export).
  { unfold sample_export. repeat constructor; try (simpl; lia);
      unfold sample_strptime, sample_raw; simpl; intros when; try done;
      intros [= <-]; lia. }
  split; [reflexivity|]. split; [exact H|].
  apply (all_listens_counted sample_strptime 70000000000000000 sample_export
           sample_songs); [reflexivity|exact H].
Defined.

(** X19.  Whenever [filter_songs] returns, the artist of every summary
    satisfies both artist arguments: it is not in [artist_exclude], also
    when it is in [artist_include], and it is in [artist_include] unless
    that list is empty. *)
Theorem filter_songs_artists songs a out :
  filter_songs songs a = Ok out ->
  Forall (fun fs =>
            (Filtered.artist fs ∉ Args.artist_exclude a) /\
            (Args.artist_include a = [] \/
             Filtered.artist fs ∈ Args.artist_include a))
         out.
Proof.
  assert (Hgate : forall song, passes_gate a song ->
            (Track.artist song ∉ Args.artist_exclude a) /\
            (Args.artist_include a = [] \/
             Track.artist song ∈ Args.artist_include a)).
  { intros song. unfold passes_gate, not_included, excluded.
    rewrite andb_True, !negb_True, andb_True, negb_True, !bool_decide_spec.
    intros [Hi Hx]. split; [done|].
    destruct (decide (Args.artist_include a = [])) as [|Hne]; [by left|].
    right. destruct (decide (Track.artist song ∈ Args.artist_include a));
      [done|]. by destruct Hi. }
  intros [-> | ->]%filter_songs_returns;
    apply Forall_fmap, list.Forall_forall;
    intros song [Hg _]%list_elem_of_filter; by apply Hgate.
Qed.

Lemma filter_songs_artists_witness :
  let songs := [("u1", sample_track "u1" "X" [sample_listen 5 40000 true]);
                ("u2", sample_track "u2" "Y" [sample_listen 6 50000 false])] in
  let a := Args.mk 0 100 datetime_min ["X"; "Y"] ["X"] [] [] None None None None in
  filter_songs songs a = Ok [Filtered.mk "Song" "Y" "Album" "u2" [50000%Z] 0] /\
  Forall (fun fs =>
            (Filtered.artist fs ∉ Args.artist_exclude a) /\
            (Args.artist_include a = [] \/
             Filtered.artist fs ∈ Args.artist_include a))
         [Filtered.mk "Song" "Y" "Album" "u2" [50000%Z] 0].
Proof.
  intros songs a. split; [reflexivity|].
  apply (filter_songs_artists songs a). reflexivity.
Defined.
